(** * mapstructure: weakly typed decoding of documents into records

    A shallow embedding of [containers/mapstructure/mapstructure.go]
    (package [mapstructure] of mateothegreat/util) and the properties of
    its decoder.

    The Go program works through [reflect]; the embedding makes the
    run-time universe explicit: [ty] for [reflect.Type], [value] for
    the dynamic values held by [interface{}] and [reflect.Value], and
    a record [Libs] for the functions of other packages the decoder
    calls ([encoding/json], [yaml.v3], [strconv.ParseFloat],
    [time.Parse], float conversions, [reflect.Value.Convert]).
    Go maps are iterated in an order the run time chooses: a map is a
    list of entries in the order of one iteration. *)

From Stdlib Require Import ZArith Ascii String List Bool Lia Permutation.
From stdpp Require Import base option list gmap strings.

Set Warnings "-register-all".

Open Scope string_scope.
Open Scope Z_scope.

(** ** Strings and bytes: the parts of [strings], [bytes], [strconv],
    [unicode] and [unicode/utf8] the decoder uses.

    A string is its sequence of bytes, as in Go. [TrimSpace] decodes
    UTF-8 and trims the white space of Unicode, as [strings] and
    [bytes] do. Letter case ([ToLower], [is_exported_name]) is that of
    the ASCII letters: on keys, tags and field names outside ASCII
    [strings.ToLower] and [IsExported] follow the Unicode tables,
    which are not part of this development. *)
Module GoStrings.

Definition byte_of (c : ascii) : Z := Z.of_N (N_of_ascii c).
Definition char_of (b : Z) : ascii := ascii_of_N (Z.to_N (b mod 256)).

Definition is_upper (c : ascii) : bool :=
  (65 <=? byte_of c) && (byte_of c <=? 90).

Definition is_digit (c : ascii) : bool :=
  (48 <=? byte_of c) && (byte_of c <=? 57).

Definition lower_char (c : ascii) : ascii :=
  if is_upper c then char_of (byte_of c + 32) else c.

(** [strings.ToLower] on the ASCII letters; other bytes are kept. *)
Fixpoint ToLower (s : string) : string :=
  match s with
  | EmptyString => EmptyString
  | String c r => String (lower_char c) (ToLower r)
  end.

(** [utf8.RuneError], the rune of an invalid encoding. *)
Definition RuneError : Z := 0xFFFD.

(** [unicode.IsSpace]: the white space of Latin-1, then the code
    points of the Unicode property White_Space. *)
Definition IsSpace (r : Z) : bool :=
  if r <=? 0xFF then
    ((0x09 <=? r) && (r <=? 0x0D)) || (r =? 0x20) || (r =? 0x85) || (r =? 0xA0)
  else
    (r =? 0x1680) || ((0x2000 <=? r) && (r <=? 0x200A)) ||
    (r =? 0x2028) || (r =? 0x2029) || (r =? 0x202F) || (r =? 0x205F) ||
    (r =? 0x3000).

(** The number of bytes the first byte of an encoding announces
    ([utf8.first]): 1 for ASCII, 0 for a byte that starts no rune. *)
Definition rune_size (s0 : Z) : nat :=
  if s0 <? 0x80 then 1
  else if s0 <? 0xC2 then 0
  else if s0 <? 0xE0 then 2
  else if s0 <? 0xF0 then 3
  else if s0 <? 0xF5 then 4
  else 0.

(** The second byte [utf8] accepts after the first byte [s0]
    ([utf8.acceptRanges]), and a continuation byte. *)
Definition accepts (s0 s1 : Z) : bool :=
  if s0 =? 0xE0 then (0xA0 <=? s1) && (s1 <=? 0xBF)
  else if s0 =? 0xED then (0x80 <=? s1) && (s1 <=? 0x9F)
  else if s0 =? 0xF0 then (0x90 <=? s1) && (s1 <=? 0xBF)
  else if s0 =? 0xF4 then (0x80 <=? s1) && (s1 <=? 0x8F)
  else (0x80 <=? s1) && (s1 <=? 0xBF).

Definition continues (b : Z) : bool := (0x80 <=? b) && (b <=? 0xBF).

(** [utf8.DecodeRuneInString] on the bytes of a string: the first
    rune and its width in bytes; the rune error with width 1 for an
    encoding that is invalid or cut short. *)
Definition DecodeRune (s : list ascii) : Z * nat :=
  match s with
  | [] => (RuneError, 0%nat)
  | c0 :: r0 =>
      let s0 := byte_of c0 in
      match rune_size s0 with
      | 1%nat => (s0, 1%nat)
      | 2%nat =>
          match r0 with
          | c1 :: _ =>
              let s1 := byte_of c1 in
              if accepts s0 s1
              then (Z.lor (Z.shiftl (Z.land s0 0x1F) 6) (Z.land s1 0x3F), 2%nat)
              else (RuneError, 1%nat)
          | _ => (RuneError, 1%nat)
          end
      | 3%nat =>
          match r0 with
          | c1 :: c2 :: _ =>
              let s1 := byte_of c1 in
              let s2 := byte_of c2 in
              if accepts s0 s1 && continues s2
              then (Z.lor (Z.lor (Z.shiftl (Z.land s0 0x0F) 12)
                                 (Z.shiftl (Z.land s1 0x3F) 6))
                          (Z.land s2 0x3F), 3%nat)
              else (RuneError, 1%nat)
          | _ => (RuneError, 1%nat)
          end
      | 4%nat =>
          match r0 with
          | c1 :: c2 :: c3 :: _ =>
              let s1 := byte_of c1 in
              let s2 := byte_of c2 in
              let s3 := byte_of c3 in
              if accepts s0 s1 && continues s2 && continues s3
              then (Z.lor (Z.lor (Z.lor (Z.shiftl (Z.land s0 0x07) 18)
                                        (Z.shiftl (Z.land s1 0x3F) 12))
                                 (Z.shiftl (Z.land s2 0x3F) 6))
                          (Z.land s3 0x3F), 4%nat)
              else (RuneError, 1%nat)
          | _ => (RuneError, 1%nat)
          end
      | _ => (RuneError, 1%nat)
      end
  end.

(** [utf8.RuneStart]: the byte is not a continuation byte. *)
Definition RuneStart (b : Z) : bool := negb (Z.land b 0xC0 =? 0x80).

(** [utf8.DecodeLastRuneInString] on the bytes of a string in reverse
    order, the last byte first: the last rune and its width. The
    start of the rune is looked for among the three bytes before the
    last ([UTFMax] is 4); the bytes from there must decode to one rune
    that ends at the end. With no start among them the decoding from
    the limit cannot end at the end: the rune error with width 1. *)
Definition DecodeLastRune (rs : list ascii) : Z * nat :=
  match rs with
  | [] => (RuneError, 0%nat)
  | c :: r1 =>
      if byte_of c <? 0x80 then (byte_of c, 1%nat)
      else
        let start :=
          match r1 with
          | c1 :: r2 =>
              if RuneStart (byte_of c1) then Some [c1; c]
              else
                match r2 with
                | c2 :: r3 =>
                    if RuneStart (byte_of c2) then Some [c2; c1; c]
                    else
                      match r3 with
                      | c3 :: _ =>
                          if RuneStart (byte_of c3) then Some [c3; c2; c1; c] else None
                      | [] => None
                      end
                | [] => None
                end
          | [] => None
          end in
        match start with
        | Some u =>
            match DecodeRune u with
            | (r, size) =>
                if Nat.eqb size (length u) then (r, size) else (RuneError, 1%nat)
            end
        | None => (RuneError, 1%nat)
        end
  end.

(** [strings.TrimLeftFunc s unicode.IsSpace] on the bytes of [s]: the
    runes at the start are dropped while they are white space. *)
Fixpoint trim_left (s : list ascii) : list ascii :=
  match s with
  | [] => []
  | _ :: r1 =>
      match DecodeRune s with
      | (r, size) =>
          if IsSpace r then
            match size, r1 with
            | 1%nat, _ => trim_left r1
            | 2%nat, _ :: r2 => trim_left r2
            | 3%nat, _ :: _ :: r3 => trim_left r3
            | 4%nat, _ :: _ :: _ :: r4 => trim_left r4
            | _, _ => s
            end
          else s
      end
  end.

(** [strings.TrimRightFunc s unicode.IsSpace] on the bytes of [s] in
    reverse order: the runes at the end are dropped while they are
    white space, and the string ends where the last rune that is not
    white space ends. *)
Fixpoint trim_last (rs : list ascii) : list ascii :=
  match rs with
  | [] => []
  | _ :: r1 =>
      match DecodeLastRune rs with
      | (r, size) =>
          if IsSpace r then
            match size, r1 with
            | 1%nat, _ => trim_last r1
            | 2%nat, _ :: r2 => trim_last r2
            | 3%nat, _ :: _ :: r3 => trim_last r3
            | 4%nat, _ :: _ :: _ :: r4 => trim_last r4
            | _, _ => rs
            end
          else rs
      end
  end.

Definition trim_right (s : list ascii) : list ascii := rev (trim_last (rev s)).

(** [strings.TrimSpace] and [bytes.TrimSpace]: the white space of
    Unicode, encoded in UTF-8, removed from both ends. Both are
    [TrimFunc] with [unicode.IsSpace], after a loop over the ASCII
    bytes at either end that gives the same result faster. *)
Definition TrimSpace (s : string) : string :=
  string_of_list_ascii (trim_right (trim_left (list_ascii_of_string s))).

(** [strings.Split s ","]: always at least one part. *)
Fixpoint Split_comma (s : string) : list string :=
  match s with
  | EmptyString => [EmptyString]
  | String c r =>
      if Ascii.eqb c "," then EmptyString :: Split_comma r
      else match Split_comma r with
           | p :: ps => String c p :: ps
           | [] => [String c EmptyString]
           end
  end.

(** [parts[0]] of a split; the split is never empty. *)
Definition first_part (parts : list string) : string :=
  match parts with p :: _ => p | [] => EmptyString end.

Fixpoint has_prefix (p s : string) : bool :=
  match p, s with
  | EmptyString, _ => true
  | String a p', String b s' => Ascii.eqb a b && has_prefix p' s'
  | String _ _, EmptyString => false
  end.

(** [strings.Contains]. *)
Fixpoint Contains (s sub : string) : bool :=
  has_prefix sub s ||
  match s with
  | EmptyString => false
  | String _ r => Contains r sub
  end.

(** The first byte of a non-empty string: [s[0]]. *)
Definition first_byte (s : string) : option ascii :=
  match s with String c _ => Some c | EmptyString => None end.

(** Exported identifiers start with an upper-case letter
    ([reflect.StructField.IsExported]); the letters are the ASCII
    letters. *)
Definition is_exported_name (s : string) : bool :=
  match s with String c _ => is_upper c | EmptyString => false end.

(** Decimal digits to a number, most significant first; [None] on an
    empty string or a character that is not a digit. *)
Fixpoint digits_acc (s : string) (acc : Z) : option Z :=
  match s with
  | EmptyString => Some acc
  | String c r =>
      if is_digit c then digits_acc r (10 * acc + (byte_of c - 48)) else None
  end.

Definition digits (s : string) : option Z :=
  match s with
  | EmptyString => None
  | _ => digits_acc s 0
  end.

(** [strconv.ParseUint s 10 bitSize]: digits only, and the value must
    fit [bitSize] bits. *)
Definition ParseUint (s : string) (bitSize : Z) : option Z :=
  match digits s with
  | Some n => if n <? 2 ^ bitSize then Some n else None
  | None => None
  end.

(** [strconv.ParseInt s 10 bitSize]: an optional sign, digits, and the
    value must fit a signed [bitSize]-bit integer. *)
Definition ParseInt (s : string) (bitSize : Z) : option Z :=
  match s with
  | EmptyString => None
  | String c r =>
      let neg := Ascii.eqb c "-" in
      let body := if Ascii.eqb c "+" || neg then r else s in
      match digits body with
      | Some un =>
          let cutoff := 2 ^ (bitSize - 1) in
          if negb neg && (cutoff <=? un) then None
          else if neg && (cutoff <? un) then None
          else Some (if neg then - un else un)
      | None => None
      end
  end.

(** [strconv.ParseBool]. *)
Definition ParseBool (s : string) : option bool :=
  if bool_decide (s ∈ ["1"; "t"; "T"; "TRUE"; "true"; "True"]) then Some true
  else if bool_decide (s ∈ ["0"; "f"; "F"; "FALSE"; "false"; "False"]) then Some false
  else None.

End GoStrings.
Import GoStrings.

(** ** Types: the universe of [reflect.Type] the decoder is studied on.

    Predeclared types, [interface{}], slices, maps, pointers and struct
    types. A struct type is named by its declaration ([sname], empty for
    a struct literal type); the other types are unnamed. A struct tag is
    a list of key/value pairs ([reflect.StructTag.Get] looks a key up). *)
Module GoTypes.

Inductive isize := I0 | I8 | I16 | I32 | I64.
Inductive fsize := F32 | F64.

(** [Type.Bits]; [int] and [uint] are 64 bits wide. *)
Definition ibits (w : isize) : Z :=
  match w with I0 => 64 | I8 => 8 | I16 => 16 | I32 => 32 | I64 => 64 end.

Definition fbits (w : fsize) : Z :=
  match w with F32 => 32 | F64 => 64 end.

Record field_of (T : Type) := mkField {
  fname : string;
  ftags : list (string * string);
  ftype : T
}.
Arguments mkField {T} _ _ _.
Arguments fname {T} _.
Arguments ftags {T} _.
Arguments ftype {T} _.

Inductive ty :=
| TBool
| TInt (w : isize)
| TUint (w : isize)
| TFloat (w : fsize)
| TString
| TInterface
| TSlice (e : ty)
| TMap (k e : ty)
| TPtr (e : ty)
| TStruct (sname : string) (fields : list (field_of ty)).

Abbreviation field := (field_of ty).

(** [reflect.Kind]. *)
Inductive Kind :=
| Invalid | Bool | Int (w : isize) | Uint (w : isize) | Float (w : fsize)
| String_ | Interface | Slice | Map | Ptr | Struct.

Definition kind_of (t : ty) : Kind :=
  match t with
  | TBool => Bool
  | TInt w => Int w
  | TUint w => Uint w
  | TFloat w => Float w
  | TString => String_
  | TInterface => Interface
  | TSlice _ => Slice
  | TMap _ _ => Map
  | TPtr _ => Ptr
  | TStruct _ _ => Struct
  end.

Definition is_struct (t : ty) : bool :=
  match t with TStruct _ _ => true | _ => false end.

(** [Tag.Get key]: the value under [key], or the empty string. *)
Fixpoint tag_get (tags : list (string * string)) (key : string) : string :=
  match tags with
  | [] => ""
  | (k, v) :: r => if String.eqb k key then v else tag_get r key
  end.

Definition isize_eqb (a b : isize) : bool :=
  match a, b with
  | I0, I0 | I8, I8 | I16, I16 | I32, I32 | I64, I64 => true
  | _, _ => false
  end.

Definition fsize_eqb (a b : fsize) : bool :=
  match a, b with F32, F32 | F64, F64 => true | _, _ => false end.

Fixpoint tags_eqb (a b : list (string * string)) : bool :=
  match a, b with
  | [], [] => true
  | (k, v) :: a', (k', v') :: b' =>
      String.eqb k k' && String.eqb v v' && tags_eqb a' b'
  | _, _ => false
  end.

(** Type identity ([T == V] on [reflect.Type]): same declaration for
    struct types, same structure for the others. *)
Fixpoint ty_eqb (a b : ty) {struct a} : bool :=
  match a, b with
  | TBool, TBool => true
  | TInt w, TInt w' => isize_eqb w w'
  | TUint w, TUint w' => isize_eqb w w'
  | TFloat w, TFloat w' => fsize_eqb w w'
  | TString, TString => true
  | TInterface, TInterface => true
  | TSlice e, TSlice e' => ty_eqb e e'
  | TMap k e, TMap k' e' => ty_eqb k k' && ty_eqb e e'
  | TPtr e, TPtr e' => ty_eqb e e'
  | TStruct n fs, TStruct n' fs' =>
      String.eqb n n' &&
      (fix fields_eqb (l l' : list field) {struct l} : bool :=
         match l, l' with
         | [], [] => true
         | f :: r, f' :: r' =>
             String.eqb (fname f) (fname f') &&
             tags_eqb (ftags f) (ftags f') &&
             ty_eqb (ftype f) (ftype f') &&
             fields_eqb r r'
         | _, _ => false
         end) fs fs'
  | _, _ => false
  end.

(** The field lists of two struct types agree, tags included
    ([haveIdenticalUnderlyingType] with [cmpTags = true]). *)
Definition fields_eqb (fs fs' : list field) : bool :=
  ty_eqb (TStruct "" fs) (TStruct "" fs').

(** [haveIdenticalType T V false]: names agree at this level
    ([cmpname]) and the underlying types agree with struct tags
    ignored. With [cmpname = false] this is
    [haveIdenticalUnderlyingType T V false]. *)
Fixpoint ident_notags (cmpname : bool) (a b : ty) {struct a} : bool :=
  match a, b with
  | TBool, TBool => true
  | TInt w, TInt w' => isize_eqb w w'
  | TUint w, TUint w' => isize_eqb w w'
  | TFloat w, TFloat w' => fsize_eqb w w'
  | TString, TString => true
  | TInterface, TInterface => true
  | TSlice e, TSlice e' => ident_notags true e e'
  | TMap k e, TMap k' e' => ident_notags true k k' && ident_notags true e e'
  | TPtr e, TPtr e' => ident_notags true e e'
  | TStruct n fs, TStruct n' fs' =>
      (negb cmpname || String.eqb n n') &&
      (fix go (l l' : list field) {struct l} : bool :=
         match l, l' with
         | [], [] => true
         | f :: r, f' :: r' =>
             String.eqb (fname f) (fname f') &&
             ident_notags true (ftype f) (ftype f') &&
             go r r'
         | _, _ => false
         end) fs fs'
  | _, _ => false
  end.

Definition has_name (t : ty) : bool :=
  match t with TStruct n _ => negb (String.eqb n "") | _ => false end.

(** [V.AssignableTo(T)]: identical types, or identical underlying types
    when one of the two is unnamed, or [T] is [interface{}], which
    every type implements. *)
Definition AssignableTo (V T : ty) : bool :=
  ty_eqb V T
  || match V, T with
     | TStruct n fs, TStruct n' fs' =>
         negb (has_name V && has_name T) && fields_eqb fs fs'
     | _, TInterface => true
     | _, _ => false
     end.

Definition is_integer (t : ty) : bool :=
  match t with TInt _ | TUint _ => true | _ => false end.

Definition is_numeric (t : ty) : bool :=
  match t with TInt _ | TUint _ | TFloat _ => true | _ => false end.

(** Slices of bytes or runes: [[]uint8] and [[]int32]. *)
Definition is_bytes_or_runes (t : ty) : bool :=
  match t with
  | TSlice (TUint I8) | TSlice (TInt I32) => true
  | _ => false
  end.

(** [V.ConvertibleTo(T)], after [reflect.convertOp]: numeric to numeric,
    integer to string, string to and from byte and rune slices,
    identical underlying types with tags ignored, unnamed pointers to
    such types, and every type to [interface{}]. *)
Definition ConvertibleTo (V T : ty) : bool :=
  (is_numeric V && is_numeric T)
  || (is_integer V && ty_eqb T TString)
  || (ty_eqb V TString && is_bytes_or_runes T)
  || (is_bytes_or_runes V && ty_eqb T TString)
  || ident_notags false V T
  || match V, T with
     | TPtr e, TPtr e' => ident_notags false e e'
     | _, TInterface => true
     | _, _ => false
     end.

(** [time.Time]: a struct of three unexported fields. *)
Definition TLocation : ty := TStruct "time.Location" [].
Definition TTime : ty :=
  TStruct "time.Time"
    [ mkField "wall" [] (TUint I64);
      mkField "ext" [] (TInt I64);
      mkField "loc" [] (TPtr TLocation) ].

(** The type of a document, [map[string]interface{}]. *)
Definition TDoc : ty := TMap TString TInterface.

End GoTypes.
Import GoTypes.

(** ** Values: what an [interface{}] or a [reflect.Value] holds.

    Every value carries its dynamic type. Integers are [Z] inside the
    range of their width, floats are their IEEE-754 bit patterns. A nil
    slice, map or pointer is [None]; a map is the list of its entries
    in iteration order. [VIface] is a slot of static type
    [interface{}]: [None] for the nil interface, otherwise the value
    it holds. A source handed to the decoder as [interface{}] is an
    [option value]. *)
Module GoValues.

Inductive value :=
| VBool (b : bool)
| VInt (w : isize) (n : Z)
| VUint (w : isize) (n : Z)
| VFloat (w : fsize) (bits : Z)
| VString (s : string)
| VSlice (e : ty) (xs : option (list value))
| VMap (k e : ty) (m : option (list (value * value)))
| VPtr (e : ty) (p : option value)
| VStruct (sname : string) (fields : list field) (vals : list value)
| VIface (c : option value).

(** [reflect.TypeOf]. *)
Definition typeof (v : value) : ty :=
  match v with
  | VBool _ => TBool
  | VInt w _ => TInt w
  | VUint w _ => TUint w
  | VFloat w _ => TFloat w
  | VString _ => TString
  | VSlice e _ => TSlice e
  | VMap k e _ => TMap k e
  | VPtr e _ => TPtr e
  | VStruct n fs _ => TStruct n fs
  | VIface _ => TInterface
  end.

(** [reflect.Zero]. *)
Fixpoint zero (t : ty) : value :=
  match t with
  | TBool => VBool false
  | TInt w => VInt w 0
  | TUint w => VUint w 0
  | TFloat w => VFloat w 0
  | TString => VString ""
  | TInterface => VIface None
  | TSlice e => VSlice e None
  | TMap k e => VMap k e None
  | TPtr e => VPtr e None
  | TStruct n fs =>
      VStruct n fs
        ((fix zeros (l : list field) : list value :=
            match l with
            | [] => []
            | f :: r => zero (ftype f) :: zeros r
            end) fs)
  end.

Definition zeros (fs : list field) : list value :=
  List.map (fun f => zero (ftype f)) fs.

(** [Value.IsZero]. A float is its bit pattern, and the zero value is
    the pattern of positive zero; negative zero, which [reflect] also
    reports as zero from Go 1.22 on, is told apart from it here. *)
Fixpoint IsZero (v : value) : bool :=
  match v with
  | VBool b => negb b
  | VInt _ n => n =? 0
  | VUint _ n => n =? 0
  | VFloat _ b => b =? 0
  | VString s => String.eqb s ""
  | VSlice _ xs => match xs with None => true | Some _ => false end
  | VMap _ _ m => match m with None => true | Some _ => false end
  | VPtr _ p => match p with None => true | Some _ => false end
  | VStruct _ _ vs =>
      (fix all_zero (l : list value) : bool :=
         match l with
         | [] => true
         | x :: r => IsZero x && all_zero r
         end) vs
  | VIface c => match c with None => true | Some _ => false end
  end.

(** [Value.Interface]: the contents of a slot as an [interface{}]. A
    slot of interface type yields what it holds. *)
Definition Interface (v : value) : option value :=
  match v with
  | VIface c => c
  | _ => Some v
  end.

(** Storing an [interface{}] into a slot of type [interface{}]. *)
Definition to_iface (c : option value) : value := VIface c.

(** [target.Set(v)] for [v] assignable to the target type [t]: the
    stored value has the target's type. *)
Definition assign (t : ty) (v : value) : value :=
  match t, v with
  | TInterface, VIface _ => v
  | TInterface, _ => VIface (Some v)
  | TStruct n fs, VStruct _ _ vs => VStruct n fs vs
  | _, _ => v
  end.

(** [rv.Field(i)] and the store through it. *)
Definition Field (rv : value) (i : nat) : value :=
  match rv with
  | VStruct _ _ vs => default (VIface None) (vs !! i)
  | _ => VIface None
  end.

Definition set_Field (rv : value) (i : nat) (x : value) : value :=
  match rv with
  | VStruct n fs vs => VStruct n fs (<[i := x]> vs)
  | _ => rv
  end.

(** Two's complement wrap-around of [SetInt] and [SetUint] at the
    width of the target. *)
Definition wrap_unsigned (bits n : Z) : Z := n mod 2 ^ bits.
Definition wrap_signed (bits n : Z) : Z :=
  (n + 2 ^ (bits - 1)) mod 2 ^ bits - 2 ^ (bits - 1).

(** [[]byte(s)] and [string(b)]. *)
Fixpoint bytes_of_string (s : string) : list value :=
  match s with
  | EmptyString => []
  | String c r => VUint I8 (byte_of c) :: bytes_of_string r
  end.

Definition byte_value (v : value) : ascii :=
  match v with
  | VUint _ n => char_of n
  | _ => char_of 0
  end.

Fixpoint string_of_bytes (l : list value) : string :=
  match l with
  | [] => EmptyString
  | b :: r => String (byte_value b) (string_of_bytes r)
  end.

Definition byte_slice (s : string) : value :=
  VSlice (TUint I8) (Some (bytes_of_string s)).

Definition slice_elems (xs : option (list value)) : list value :=
  match xs with Some l => l | None => [] end.

(** The entries of a map, in iteration order; none for a nil map. *)
Definition map_entries (m : option (list (value * value))) : list (value * value) :=
  match m with Some l => l | None => [] end.

(** The key of a document entry: a string. *)
Definition key_string (k : value) : string :=
  match k with VString s => s | _ => "" end.

(** Errors, one constructor per message of the program. [ErrLib] is an
    error of [encoding/json] or [yaml.v3]; [ErrPanic] is a run-time
    panic of [reflect], which the program does not recover. *)
Inductive error :=
| ErrInvalidOutput
| ErrNotStructOutput (k : Kind)
| ErrField (name : string) (e : error)
| ErrUnknownField (key : string)
| ErrMapKey (e : error)
| ErrMapValue (e : error)
| ErrConvert (source : value) (from to : ty)
| ErrParseJSON (e : error)
| ErrParseYAML (e : error)
| ErrBadYAMLData (t : option ty)
| ErrBadData (t : option ty)
| ErrEmptyInput
| ErrToMapNotStruct (k : Kind)
| ErrLib (msg : string)
| ErrPanic (msg : string).

(** The functions of other packages, as the decoder uses them. *)
Record Libs := {
  (** [strconv.ParseFloat s bitSize]: the float64 bit pattern. *)
  ParseFloat : string -> Z -> option Z;
  (** [float32(f)] for a float64 [f]: the float32 bit pattern. *)
  to_float32 : Z -> Z;
  (** [int64(f)] and [uint64(f)]: truncation toward zero. *)
  float_to_int64 : Z -> Z;
  float_to_uint64 : Z -> Z;
  (** [strconv.FormatFloat f 'f' -1 64]. *)
  FormatFloat : Z -> string;
  (** [time.Parse layout s]. *)
  time_Parse : string -> string -> option value;
  (** [newMap.SetMapIndex key elem] on the entries of a map. *)
  SetMapIndex : list (value * value) -> value -> value -> list (value * value);
  (** [v.Convert(t)] for [v] whose type is convertible to [t]. *)
  Convert : value -> ty -> value;
  (** [json.Unmarshal data out] and [yaml.Unmarshal data out]: the
      output as the call leaves it, and the error. *)
  json_Unmarshal : string -> option value -> option value * option error;
  yaml_Unmarshal : string -> option value -> option value * option error
}.

(** [MapDecoder]. *)
Record MapDecoder := {
  WeaklyTyped : bool;
  TagName : string;
  IgnoreUnknownKeys : bool;
  ZeroFields : bool
}.

(** [NewDecoder]. *)
Definition NewDecoder : MapDecoder :=
  {| WeaklyTyped := true;
     TagName := "json";
     IgnoreUnknownKeys := true;
     ZeroFields := true |}.

End GoValues.
Import GoValues.

(** ** The decoder: [setValue], [decodeMap], [ToMap], [decodeValue],
    [Decode] and the package-level functions. *)
Module Decoder.

(** What a call leaves in its target, and the error it returns. *)
Definition outcome : Type := value * option error.

Section WithDecoder.
Context (L : Libs) (d : MapDecoder).

(** *** The field index (lines 286-303) *)

Definition tag_primary (m : gmap string nat) (tag : string) (i : nat) : gmap string nat :=
  if negb (String.eqb tag "") then
    let p0 := first_part (Split_comma tag) in
    if negb (String.eqb p0 "") && negb (String.eqb p0 "-")
    then <[p0 := i]> m else m
  else m.

Fixpoint fieldMap_from (fs : list field) (i : nat) (m : gmap string nat) : gmap string nat :=
  match fs with
  | [] => m
  | f :: r =>
      if negb (is_exported_name (fname f)) then fieldMap_from r (S i) m
      else
        let m1 := tag_primary m (tag_get (ftags f) (TagName d)) i in
        fieldMap_from r (S i) (<[ToLower (fname f) := i]> m1)
  end.

Definition fieldMap (fs : list field) : gmap string nat := fieldMap_from fs 0%nat ∅.

(** Lines 315-319: the key as it is, then in lower case. *)
Definition lookup_field (fm : gmap string nat) (key : string) : option nat :=
  match fm !! key with
  | Some i => Some i
  | None => fm !! ToLower key
  end.

Definition struct_fields (t : ty) : list field :=
  match t with TStruct _ fs => fs | _ => [] end.

(** [fieldValue.CanSet()] for a field of an addressable struct. *)
Definition CanSet (f : field) : bool := is_exported_name (fname f).

(** *** The weak conversions of [setValue] (lines 361-454) *)

Definition time_formats : list string :=
  [ "2006-01-02T15:04:05Z07:00";
    "2006-01-02T15:04:05.999999999Z07:00";
    "2006-01-02T15:04:05";
    "2006-01-02 15:04:05";
    "2006-01-02" ].

Fixpoint first_time (formats : list string) (str : string) : option value :=
  match formats with
  | [] => None
  | fmt :: r =>
      match time_Parse L fmt str with
      | Some t => Some t
      | None => first_time r str
      end
  end.

Definition true_words : list string := ["true"; "1"; "t"; "yes"; "y"; "on"].
Definition false_words : list string := ["false"; "0"; "f"; "no"; "n"; "off"].

(** [target.SetFloat(f)]. *)
Definition SetFloat (w : fsize) (f : Z) : value :=
  match w with
  | F64 => VFloat F64 f
  | F32 => VFloat F32 (to_float32 L f)
  end.

(** The switch on the target kind for a string source
    (lines 366-412). [None]: no case returned. *)
Definition string_switch (str : string) (t : ty) : option value :=
  match t with
  | TInt w =>
      match ParseInt str (ibits w) with
      | Some i => Some (VInt w (wrap_signed (ibits w) i))
      | None => None
      end
  | TUint w =>
      match ParseUint str (ibits w) with
      | Some i => Some (VUint w (wrap_unsigned (ibits w) i))
      | None => None
      end
  | TFloat w =>
      match ParseFloat L str (fbits w) with
      | Some f => Some (SetFloat w f)
      | None => None
      end
  | TBool =>
      if bool_decide (ToLower str ∈ true_words) then Some (VBool true)
      else if bool_decide (ToLower str ∈ false_words) then Some (VBool false)
      else match ParseBool str with
           | Some b => Some (VBool b)
           | None => None
           end
  | TSlice e =>
      match kind_of e with
      | String_ =>
          Some (VSlice e (Some (List.map (fun part => VString (TrimSpace part))
                                         (Split_comma str))))
      | _ => None
      end
  | _ => None
  end.

Definition weak_string (str : string) (t : ty) : option value :=
  match string_switch str t with
  | Some x => Some x
  | None => if ty_eqb t TTime then first_time time_formats str else None
  end.

(** The switch for a float64 source (lines 433-453). *)
Definition weak_float (f : Z) (t : ty) : option value :=
  match t with
  | TInt w => Some (VInt w (wrap_signed (ibits w) (float_to_int64 L f)))
  | TUint w => Some (VUint w (wrap_unsigned (ibits w) (float_to_uint64 L f)))
  | TFloat F32 => Some (SetFloat F32 f)
  | TString => Some (VString (FormatFloat L f))
  | _ => None
  end.

Definition weak_convert (sv : value) (t : ty) : option value :=
  if WeaklyTyped d then
    match sv with
    | VString str => weak_string str t
    | VFloat F64 f => weak_float f t
    | _ => None
    end
  else None.

(** Lines 519-525. *)
Definition last_resort (sv : value) (t : ty) (old : value) : outcome :=
  if ConvertibleTo (typeof sv) t then (Convert L sv t, None)
  else (old, Some (ErrConvert sv (typeof sv) t)).

(** *** The recursive calls

    [setValue] calls itself on the elements of a slice, the keys and
    elements of a map, the pointee of a pointer, and through
    [decodeMap] on the values of a document. The loops take the
    function to call on a source value, [setv]. *)

(** [setValue(target, x.Interface())] for a slot [x] of a source: a nil
    interface zeroes the target (lines 346-349). *)
Definition set_content (setv : value -> ty -> value -> outcome)
    (x : value) (t : ty) (old : value) : outcome :=
  match x with
  | VIface None => (zero t, None)
  | VIface (Some c) => setv c t old
  | _ => setv x t old
  end.

(** Lines 458-463: the elements of the new slice. *)
Fixpoint convert_elems (setv : value -> ty -> value -> outcome) (e : ty)
    (xs : list value) : list value * option error :=
  match xs with
  | [] => ([], None)
  | x :: r =>
      match set_content setv x e (zero e) with
      | (_, Some err) => ([], Some err)
      | (y, None) =>
          match convert_elems setv e r with
          | (ys, None) => (y :: ys, None)
          | (_, Some err) => ([], Some err)
          end
      end
  end.

(** Lines 474-489: the entries of the new map. *)
Fixpoint convert_entries (setv : value -> ty -> value -> outcome) (kt et : ty)
    (es : list (value * value)) (acc : list (value * value))
    : list (value * value) * option error :=
  match es with
  | [] => (acc, None)
  | (k, v) :: r =>
      match set_content setv k kt (zero kt) with
      | (_, Some err) => (acc, Some (ErrMapKey err))
      | (newKey, None) =>
          match set_content setv v et (zero et) with
          | (_, Some err) => (acc, Some (ErrMapValue err))
          | (newValue, None) =>
              convert_entries setv kt et r (SetMapIndex L acc newKey newValue)
          end
      end
  end.

(** Lines 314-334: the loop of [decodeMap] over the entries of the
    document; the record as the loop leaves it, the unknown keys, and
    the error that ended it. *)
Fixpoint decode_entries (setv : value -> ty -> value -> outcome)
    (fs : list field) (fm : gmap string nat)
    (es : list (value * value)) (rv : value) (unknownKeys : list string)
    : value * list string * option error :=
  match es with
  | [] => (rv, unknownKeys, None)
  | (k, v) :: r =>
      let key := key_string k in
      match lookup_field fm key with
      | None => decode_entries setv fs fm r rv (unknownKeys ++ [key])
      | Some i =>
          match fs !! i with
          | None => (rv, unknownKeys, Some (ErrPanic "reflect: Field index out of range"))
          | Some f =>
              if negb (CanSet f) then decode_entries setv fs fm r rv unknownKeys
              else
                match set_content setv v (ftype f) (Field rv i) with
                | (x, Some err) =>
                    (set_Field rv i x, unknownKeys, Some (ErrField (fname f) err))
                | (x, None) =>
                    decode_entries setv fs fm r (set_Field rv i x) unknownKeys
                end
          end
      end
  end.

(** [decodeMap] behind the pointer (lines 272-341): [t] and [rv] are
    the type and the value the output points to. *)
Definition decodeMap_at (setv : value -> ty -> value -> outcome)
    (m : list (value * value)) (t : ty) (rv : value) : outcome :=
  if negb (is_struct t) then
    match m with
    | [(_, v)] => set_content setv v t rv
    | _ => (rv, Some (ErrNotStructOutput (kind_of t)))
    end
  else
    let fs := struct_fields t in
    let rv0 := if ZeroFields d then zero t else rv in
    match decode_entries setv fs (fieldMap fs) m rv0 [] with
    | (rv1, _, Some err) => (rv1, Some err)
    | (rv1, unknownKeys, None) =>
        match unknownKeys with
        | key :: _ =>
            if negb (IgnoreUnknownKeys d) then (rv1, Some (ErrUnknownField key))
            else (rv1, None)
        | [] => (rv1, None)
        end
    end.

(** The source is a [map[string]interface{}] (line 496). *)
Definition is_doc (sv : value) : bool := ty_eqb (typeof sv) TDoc.

(** One call of [setValue] on a non-nil source [sv] (lines 351-525);
    [setv] is [setValue] on the parts of [sv], [self] is [setValue] on
    [sv] itself at another target type. *)
Definition setValue_step (setv : value -> ty -> value -> outcome)
    (self : ty -> value -> outcome)
    (sv : value) (t : ty) (old : value) : outcome :=
  if AssignableTo (typeof sv) t then (assign t sv, None)
  else
    match weak_convert sv t with
    | Some x => (x, None)
    | None =>
        match t with
        | TSlice e =>
            match sv with
            | VSlice _ xs =>
                match
                  match xs with
                  | Some l => convert_elems setv e l
                  | None => convert_elems setv e []
                  end
                with
                | (ys, None) => (VSlice e (Some ys), None)
                | (_, Some err) => (old, Some err)
                end
            | _ => last_resort sv t old
            end
        | TMap kt et =>
            match sv with
            | VMap _ _ m =>
                match
                  match m with
                  | Some l => convert_entries setv kt et l []
                  | None => convert_entries setv kt et [] []
                  end
                with
                | (es, None) => (VMap kt et (Some es), None)
                | (_, Some err) => (old, Some err)
                end
            | _ => last_resort sv t old
            end
        | TStruct _ _ =>
            match sv with
            | VMap _ _ m =>
                if is_doc sv then
                  match m with
                  | Some l => decodeMap_at setv l t old
                  | None => decodeMap_at setv [] t old
                  end
                else last_resort sv t old
            | _ => last_resort sv t old
            end
        | TPtr e =>
            match sv with
            | VPtr _ None => (VPtr e None, None)
            | VPtr _ (Some p) =>
                match set_content setv p e (zero e) with
                | (x, None) => (VPtr e (Some x), None)
                | (_, Some err) => (old, Some err)
                end
            | _ =>
                match self e (zero e) with
                | (x, None) => (VPtr e (Some x), None)
                | (_, Some err) => (old, Some err)
                end
            end
        | _ => last_resort sv t old
        end
    end.

(** [setValue] on a non-nil source. *)
Fixpoint setValue_on (sv : value) {struct sv} : ty -> value -> outcome :=
  fix at_type (t : ty) {struct t} : value -> outcome :=
    fun old => setValue_step setValue_on at_type sv t old.

(** [setValue(target, source)]: [t] and [old] are the type and the
    current value of the target. *)
Definition setValue (source : option value) (t : ty) (old : value) : outcome :=
  match source with
  | None => (zero t, None)
  | Some sv => setValue_on sv t old
  end.

(** [decodeMap(m, output)]: the output as the call leaves it, and the
    error. *)
Definition decodeMap (m : list (value * value)) (output : option value)
    : option value * option error :=
  match output with
  | Some (VPtr t (Some rv)) =>
      match decodeMap_at setValue_on m t rv with
      | (rv', err) => (Some (VPtr t (Some rv')), err)
      end
  | _ => (output, Some ErrInvalidOutput)
  end.

(** *** [ToMap] (lines 220-263) *)

(** The key a field is projected under; [None] for a field the tag
    [-] leaves out (lines 244-252). *)
Definition ToMap_name (f : field) : option string :=
  let tag := tag_get (ftags f) (TagName NewDecoder) in
  if negb (String.eqb tag "") then
    let p0 := first_part (Split_comma tag) in
    if negb (String.eqb p0 "") && negb (String.eqb p0 "-") then Some p0
    else if String.eqb p0 "-" then None
    else Some (fname f)
  else Some (fname f).

Definition omitempty (f : field) : bool :=
  Contains (tag_get (ftags f) (TagName NewDecoder)) "omitempty".

(** [result[name] = x] on the entries of the result map: the entry of
    an existing key is replaced, a new key adds an entry. *)
Fixpoint map_store (m : list (value * value)) (name : string) (x : value)
    : list (value * value) :=
  match m with
  | [] => [(VString name, x)]
  | (k, v) :: r =>
      if String.eqb (key_string k) name then (k, x) :: r
      else (k, v) :: map_store r name x
  end.

Fixpoint ToMap_fields (fs : list field) (vs : list value)
    (result : list (value * value)) : list (value * value) :=
  match fs, vs with
  | f :: fr, v :: vr =>
      if negb (is_exported_name (fname f)) then ToMap_fields fr vr result
      else
        match ToMap_name f with
        | None => ToMap_fields fr vr result
        | Some name =>
            if IsZero v && omitempty f then ToMap_fields fr vr result
            else ToMap_fields fr vr (map_store result name (to_iface (Interface v)))
        end
  | _, _ => result
  end.

(** [ToMap(input)]: the entries of the result map, or the error. *)
Definition ToMap (input : option value) : list (value * value) + error :=
  let rv := match input with Some (VPtr _ p) => p | _ => input end in
  match rv with
  | Some (VStruct _ fs vs) => inl (ToMap_fields fs vs [])
  | Some v => inr (ErrToMapNotStruct (kind_of (typeof v)))
  | None => inr (ErrToMapNotStruct Invalid)
  end.

(** *** [decodeValue] (lines 529-556)

    Called with [reflect.ValueOf(input)] and [reflect.ValueOf(output)].
    The target is addressable only behind a non-nil pointer; a store
    into any other target panics. *)
Definition panic_unaddressable : error :=
  ErrPanic "reflect: reflect.Value.Set using unaddressable value".

Definition decodeValue (input output : option value) : option value * option error :=
  match input with
  | Some (VPtr _ None) => (output, Some panic_unaddressable)
  | _ =>
      let source := match input with Some (VPtr _ (Some p)) => Some p | _ => input end in
      match output with
      | Some (VPtr _ None) => (output, Some panic_unaddressable)
      | Some (VPtr te (Some tv)) =>
          match source with
          | Some (VStruct _ _ _) =>
              match ToMap source with
              | inr err => (output, Some err)
              | inl m => decodeMap m output
              end
          | Some sv =>
              match setValue (Interface sv) te tv with
              | (tv', err) => (Some (VPtr te (Some tv')), err)
              end
          | None =>
              (output, Some (ErrPanic "reflect: call of reflect.Value.Interface on zero Value"))
          end
      | Some tv =>
          match source with
          | Some (VStruct _ _ _) =>
              match ToMap source with
              | inr err => (output, Some err)
              | inl _ =>
                  (output, Some (ErrPanic "reflect.Value.Addr of unaddressable value"))
              end
          | Some sv =>
              match Interface sv with
              | None => (output, Some panic_unaddressable)
              | Some c =>
                  if is_struct (typeof tv) && is_doc c
                  then (output, Some (ErrPanic "reflect.Value.Addr of unaddressable value"))
                  else
                    match setValue_on c (typeof tv) tv with
                    | (_, Some err) => (output, Some err)
                    | (_, None) => (output, Some panic_unaddressable)
                    end
              end
          | None =>
              (output, Some (ErrPanic "reflect: call of reflect.Value.Interface on zero Value"))
          end
      | None =>
          (output, Some (ErrPanic "reflect: call of reflect.Value.Type on zero Value"))
      end
  end.

(** *** [Decode] (lines 62-98) *)

(** A fresh [var m map[string]interface{}] behind its address, and the
    entries the parser left in it. *)
Definition new_doc : option value := Some (VPtr TDoc (Some (zero TDoc))).

Definition doc_entries (out : option value) : list (value * value) :=
  match out with
  | Some (VPtr _ (Some (VMap _ _ m))) => map_entries m
  | _ => []
  end.

(** Lines 76-85: the native JSON decoding, then the generic one. *)
Definition Decode_json (v : string) (output : option value) : option value * option error :=
  match json_Unmarshal L v output with
  | (out1, None) => (out1, None)
  | (out1, Some _) =>
      match json_Unmarshal L v new_doc with
      | (_, Some err) => (out1, Some (ErrParseJSON err))
      | (m, None) => decodeMap (doc_entries m) out1
      end
  end.

(** Lines 67-74: input that does not open with a brace or a bracket
    may be YAML. *)
Definition looks_like_yaml (v : string) : bool :=
  match first_byte (TrimSpace v) with
  | Some c => negb (Ascii.eqb c "{") && negb (Ascii.eqb c "[")
  | None => false
  end.

(** The case [[]byte] of [Decode]. *)
Definition Decode_bytes (v : string) (output : option value) : option value * option error :=
  if looks_like_yaml v then
    match yaml_Unmarshal L v new_doc with
    | (m, None) => decodeMap (doc_entries m) output
    | (_, Some _) => Decode_json v output
    end
  else Decode_json v output.

(** [d.Decode(input, output)]. The case [string] calls [Decode] on
    [[]byte(v)], which the case [[]byte] takes. *)
Definition Decode (input output : option value) : option value * option error :=
  match input with
  | Some (VSlice (TUint I8) xs) =>
      Decode_bytes (string_of_bytes (slice_elems xs)) output
  | Some (VString v) =>
      Decode_bytes (string_of_bytes (bytes_of_string v)) output
  | Some (VMap TString TInterface m) =>
      decodeMap (map_entries m) output
  | _ => decodeValue input output
  end.

End WithDecoder.

(** *** The package-level functions *)
Section Package.
Context (L : Libs).

(** [DecodeJSON] (lines 108-110). *)
Definition DecodeJSON (jsonData output : option value) : option value * option error :=
  Decode L NewDecoder jsonData output.

(** The decoder of [DecodeYAML]: [NewDecoder] with the tag name [yaml]. *)
Definition yamlDecoder : MapDecoder :=
  {| WeaklyTyped := WeaklyTyped NewDecoder;
     TagName := "yaml";
     IgnoreUnknownKeys := IgnoreUnknownKeys NewDecoder;
     ZeroFields := ZeroFields NewDecoder |}.

(** The bytes of an input that is a [[]byte] or a [string]. *)
Definition input_bytes (data : option value) : option string :=
  match data with
  | Some (VSlice (TUint I8) xs) => Some (string_of_bytes (slice_elems xs))
  | Some (VString v) => Some (string_of_bytes (bytes_of_string v))
  | _ => None
  end.

(** [DecodeYAML] (lines 120-146). *)
Definition DecodeYAML (yamlData output : option value) : option value * option error :=
  match input_bytes yamlData with
  | None => (output, Some (ErrBadYAMLData (typeof <$> yamlData)))
  | Some data =>
      match yaml_Unmarshal L data output with
      | (out1, None) => (out1, None)
      | (out1, Some _) =>
          match yaml_Unmarshal L data new_doc with
          | (_, Some err) => (out1, Some (ErrParseYAML err))
          | (m, None) => decodeMap L yamlDecoder (doc_entries m) out1
          end
      end
  end.

(** [AutoDecode] (lines 157-198). *)
Definition AutoDecode (data output : option value) : option value * option error :=
  match input_bytes data with
  | None => (output, Some (ErrBadData (typeof <$> data)))
  | Some raw =>
      let bytes := TrimSpace raw in
      match first_byte bytes with
      | None => (output, Some ErrEmptyInput)
      | Some firstChar =>
          if Ascii.eqb firstChar "{" || Ascii.eqb firstChar "[" then
            match DecodeJSON (Some (byte_slice bytes)) output with
            | (out1, None) => (out1, None)
            | (out1, Some err) =>
                match DecodeYAML (Some (byte_slice bytes)) out1 with
                | (out2, None) => (out2, None)
                | (out2, Some _) => (out2, Some err)
                end
            end
          else DecodeYAML (Some (byte_slice bytes)) output
      end
  end.

(** [DecodeMap] (lines 208-210). *)
Definition DecodeMap (m : option (list (value * value))) (output : option value)
    : option value * option error :=
  Decode L NewDecoder (Some (VMap TString TInterface m)) output.

End Package.
End Decoder.
Import Decoder.

(** ** Sample libraries and records for the concrete lemmas *)
Module Samples.

(** Library functions that reject every input; the lemmas that use
    them never reach a library call that matters. *)
Definition no_libs : Libs :=
  {| ParseFloat := fun _ _ => None;
     to_float32 := fun b => b;
     float_to_int64 := fun b => b;
     float_to_uint64 := fun b => b;
     FormatFloat := fun _ => "";
     time_Parse := fun _ _ => None;
     SetMapIndex := fun m k v => (m ++ [(k, v)])%list;
     Convert := fun v _ => v;
     json_Unmarshal := fun _ o => (o, Some (ErrLib "json: no parser"));
     yaml_Unmarshal := fun _ o => (o, Some (ErrLib "yaml: no parser")) |}.

(** The libraries on the document [null], where [encoding/json] and
    [yaml.v3] agree with these functions: [json.Unmarshal] of [null]
    into a pointer to a struct succeeds and stores nothing;
    [yaml.Unmarshal] of [null] into a pointer to a map succeeds and
    leaves the map nil. Other documents are rejected. *)
Definition null_libs : Libs :=
  {| ParseFloat := ParseFloat no_libs;
     to_float32 := to_float32 no_libs;
     float_to_int64 := float_to_int64 no_libs;
     float_to_uint64 := float_to_uint64 no_libs;
     FormatFloat := FormatFloat no_libs;
     time_Parse := time_Parse no_libs;
     SetMapIndex := SetMapIndex no_libs;
     Convert := Convert no_libs;
     json_Unmarshal := fun data o =>
       if String.eqb (TrimSpace data) "null" then (o, None)
       else (o, Some (ErrLib "json: no parser"));
     yaml_Unmarshal := fun data o =>
       if String.eqb (TrimSpace data) "null" then
         match o with
         | Some (VPtr (TMap k e) (Some _)) =>
             (Some (VPtr (TMap k e) (Some (VMap k e None))), None)
         | _ => (o, None)
         end
       else (o, Some (ErrLib "yaml: no parser")) |}.

(** A string from its bytes, and the no-break space U+00A0 in UTF-8. *)
Definition of_bytes (l : list Z) : string := string_of_list_ascii (List.map char_of l).
Definition nbsp : string := of_bytes [0xC2; 0xA0].

(** The double quote, and the JSON document
    [{"id": 1, "extra": 2}]. *)
Definition dq : string := String (ascii_of_nat 34) "".
Definition item_json : string :=
  "{" ++ dq ++ "id" ++ dq ++ ": 1, " ++ dq ++ "extra" ++ dq ++ ": 2}".

(** The libraries on [item_json]: [json.Unmarshal] into a pointer to
    a struct stores 1 in its first field, the one tagged [id], and
    skips the key [extra], as [encoding/json] does for a key that
    matches no field. Other documents are rejected. *)
Definition item_libs : Libs :=
  {| ParseFloat := ParseFloat no_libs;
     to_float32 := to_float32 no_libs;
     float_to_int64 := float_to_int64 no_libs;
     float_to_uint64 := float_to_uint64 no_libs;
     FormatFloat := FormatFloat no_libs;
     time_Parse := time_Parse no_libs;
     SetMapIndex := SetMapIndex no_libs;
     Convert := Convert no_libs;
     json_Unmarshal := fun data o =>
       if String.eqb (TrimSpace data) item_json then
         match o with
         | Some (VPtr (TStruct n fs) (Some rv)) =>
             (Some (VPtr (TStruct n fs) (Some (set_Field rv 0 (VInt I0 1)))), None)
         | _ => (o, Some (ErrLib "json: cannot unmarshal object"))
         end
       else (o, Some (ErrLib "json: no parser"));
     yaml_Unmarshal := yaml_Unmarshal no_libs |}.

(** A document from its keys and values. *)
Definition doc (l : list (string * value)) : list (value * value) :=
  List.map (fun kv => (VString (fst kv), VIface (Some (snd kv)))) l.

Definition ptr_to (t : ty) (v : value) : option value := Some (VPtr t (Some v)).

(** [type Account struct { ID int `json:"id"`; Secret string `json:"-"` }] *)
Definition Account_fields : list field :=
  [ mkField "ID" [("json", "id")] (TInt I0);
    mkField "Secret" [("json", "-")] TString ].
Definition TAccount : ty := TStruct "Account" Account_fields.

(** [type Inner struct { A int `json:"a"`; B int `json:"b"` }] and
    [type Outer struct { Inner Inner `json:"inner"` }]. *)
Definition Inner_fields : list field :=
  [ mkField "A" [("json", "a")] (TInt I0);
    mkField "B" [("json", "b")] (TInt I0) ].
Definition TInner : ty := TStruct "Inner" Inner_fields.
Definition Outer_fields : list field :=
  [ mkField "Inner" [("json", "inner")] TInner ].
Definition TOuter : ty := TStruct "Outer" Outer_fields.

(** [type Item struct { ID int `json:"id"` }]. *)
Definition Item_fields : list field :=
  [ mkField "ID" [("json", "id")] (TInt I0) ].
Definition TItem : ty := TStruct "Item" Item_fields.

(** [type Data struct { A string `json:"a"`; B string `json:"b"` }]
    and [type CustomTag struct { ID int `custom:"id"`;
    Name string `custom:"name"` }]. *)
Definition Data_fields : list field :=
  [ mkField "A" [("json", "a")] TString;
    mkField "B" [("json", "b")] TString ].
Definition TData : ty := TStruct "Data" Data_fields.
Definition CustomTag_fields : list field :=
  [ mkField "ID" [("custom", "id")] (TInt I0);
    mkField "Name" [("custom", "name")] TString ].
Definition TCustomTag : ty := TStruct "CustomTag" CustomTag_fields.

(** [type WithPointers struct { StrPtr *string `json:"str_ptr"`;
    NilPtr *string `json:"nil_ptr"`; Tags []string `json:"tags"` }]. *)
Definition WithPointers_fields : list field :=
  [ mkField "StrPtr" [("json", "str_ptr")] (TPtr TString);
    mkField "NilPtr" [("json", "nil_ptr")] (TPtr TString);
    mkField "Tags" [("json", "tags")] (TSlice TString) ].
Definition TWithPointers : ty := TStruct "WithPointers" WithPointers_fields.

(** [type OmitEmpty struct { Required string `json:"required"`;
    Optional string `json:"optional,omitempty"`;
    Number int `json:"number,omitempty"` }]. *)
Definition OmitEmpty_fields : list field :=
  [ mkField "Required" [("json", "required")] TString;
    mkField "Optional" [("json", "optional,omitempty")] TString;
    mkField "Number" [("json", "number,omitempty")] (TInt I0) ].


(** [ExampleUser] and [Metadata] of [mapstructure_test.go]. *)
Definition Metadata_fields : list field :=
  [ mkField "IP" [("json", "ip_address")] TString;
    mkField "Country" [("json", "country")] TString;
    mkField "Sessions" [("json", "sessions")] (TInt I0) ].
Definition TMetadata : ty := TStruct "Metadata" Metadata_fields.
Definition ExampleUser_fields : list field :=
  [ mkField "ID" [("json", "id")] (TInt I0);
    mkField "Name" [("json", "name")] TString;
    mkField "Email" [("json", "email")] TString;
    mkField "Age" [("json", "age")] (TInt I0);
    mkField "Active" [("json", "active")] TBool;
    mkField "Score" [("json", "score")] (TFloat F64);
    mkField "Tags" [("json", "tags")] (TSlice TString);
    mkField "CreatedAt" [("json", "created_at")] TTime;
    mkField "Metadata" [("json", "metadata")] TMetadata ].
Definition TExampleUser : ty := TStruct "ExampleUser" ExampleUser_fields.

(** The time 2024-01-01 00:00:00 UTC as a [time.Time] holds it: no
    monotonic reading, the seconds since the year 1, and the nil
    location that stands for UTC. *)
Definition new_year_2024 : value :=
  VStruct "time.Time" (struct_fields TTime)
    [VUint I64 0; VInt I64 63839664000; VPtr TLocation None].

(** The libraries on the date [2024-01-01], where [time.Parse] agrees
    with this function: the layout [2006-01-02] parses it, the
    layouts with a time of day reject it. Other strings are
    rejected. *)
Definition date_libs : Libs :=
  {| ParseFloat := ParseFloat no_libs;
     to_float32 := to_float32 no_libs;
     float_to_int64 := float_to_int64 no_libs;
     float_to_uint64 := float_to_uint64 no_libs;
     FormatFloat := FormatFloat no_libs;
     time_Parse := fun layout s =>
       if String.eqb layout "2006-01-02" && String.eqb s "2024-01-01"
       then Some new_year_2024 else None;
     SetMapIndex := SetMapIndex no_libs;
     Convert := Convert no_libs;
     json_Unmarshal := json_Unmarshal no_libs;
     yaml_Unmarshal := yaml_Unmarshal no_libs |}.

(** A decoder that reports unknown keys: [NewDecoder] with
    [IgnoreUnknownKeys] off. *)
Definition strict_decoder : MapDecoder :=
  {| WeaklyTyped := true; TagName := "json";
     IgnoreUnknownKeys := false; ZeroFields := true |}.

End Samples.
Import Samples.

(** ** Notions of the statements *)

Open Scope list_scope.

(** An output [decodeMap] accepts: a pointer that is not nil. *)
Definition valid_pointer (output : option value) : Prop :=
  exists t rv, output = Some (VPtr t (Some rv)).


(** Integer literals, after the pattern [^-?[0-9]+$], and the number
    such a literal denotes in base 10. *)
Fixpoint all_digits (s : string) : bool :=
  match s with
  | EmptyString => true
  | String c r => is_digit c && all_digits r
  end.

Definition is_number (s : string) : bool :=
  match s with
  | EmptyString => false
  | _ => all_digits s
  end.


Fixpoint decimal (s : string) : Z :=
  match s with
  | EmptyString => 0
  | String c r => (byte_of c - 48) * 10 ^ Z.of_nat (String.length r) + decimal r
  end.


(** The values of a signed integer type of width [w]. *)
Definition fits (w : isize) (n : Z) : Prop :=
  - 2 ^ (ibits w - 1) <= n < 2 ^ (ibits w - 1).


(** The values directly inside a value. *)
Definition parts (v : value) : list value :=
  match v with
  | VSlice _ xs => slice_elems xs
  | VMap _ _ m => flat_map (fun kv => [fst kv; snd kv]) (map_entries m)
  | VPtr _ (Some p) => [p]
  | VStruct _ _ vs => vs
  | VIface (Some c) => [c]
  | _ => []
  end.





(** The types directly inside a type. *)
Definition type_parts (t : ty) : list ty :=
  match t with
  | TSlice e | TPtr e => [e]
  | TMap k e => [k; e]
  | TStruct _ fs => List.map ftype fs
  | _ => []
  end.



(** The key of an entry is a string. *)
Definition string_key (e : value * value) : Prop :=
  exists s, fst e = VString s.




(** The fields the keys of a document resolve to, in iteration order. *)
Definition resolved_fields (fm : gmap string nat) (m : list (value * value)) : list nat :=
  omap (fun kv => lookup_field fm (key_string (fst kv))) m.

(** The error is, or wraps, an unknown-field error. *)
Fixpoint reports_unknown_field (e : error) : bool :=
  match e with
  | ErrUnknownField _ => true
  | ErrField _ e' | ErrMapKey e' | ErrMapValue e' | ErrParseJSON e' | ErrParseYAML e' =>
      reports_unknown_field e'
  | _ => false
  end.

(** No error of the function on the value reports an unknown field. *)
Definition quiet (f : value -> ty -> value -> outcome) (v : value) : Prop :=
  forall t old x e, f v t old = (x, Some e) -> reports_unknown_field e = false.

(** The values of an unsigned integer type of width [w]. *)
Definition fits_unsigned (w : isize) (n : Z) : Prop := 0 <= n < 2 ^ ibits w.

(** The string opens with a sign. *)
Definition signed_literal (s : string) : bool :=
  match s with
  | String c _ => Ascii.eqb c "-" || Ascii.eqb c "+"
  | EmptyString => false
  end.

(** The number of commas in a string. *)
Fixpoint commas (s : string) : nat :=
  match s with
  | EmptyString => 0%nat
  | String c r => if Ascii.eqb c "," then S (commas r) else commas r
  end.

(** The string has no white space at either end. *)
Definition trimmed (s : string) : Prop := TrimSpace s = s.

(** The strings of a slice of strings. *)
Definition strings_of (v : value) : list string :=
  match v with
  | VSlice _ (Some l) => List.map key_string l
  | _ => []
  end.

(** The targets a string is parsed for under weak typing. *)
Definition parsed_target (t : ty) : bool :=
  match t with
  | TBool | TInt _ | TUint _ | TFloat _ => true
  | TSlice e => ty_eqb e TString
  | _ => ty_eqb t TTime
  end.

(** A number: a value of an integer or float type. *)
Definition is_number_value (v : value) : bool := is_numeric (typeof v).

(** The entry converts, key and element, into the key and element
    types of the target map. *)
Definition entry_converts (L : Libs) (d : MapDecoder) (kt et : ty)
    (kv kv' : value * value) : Prop :=
  setValue L d (Interface (fst kv)) kt (zero kt) = (fst kv', None) /\
  setValue L d (Interface (snd kv)) et (zero et) = (snd kv', None).

(** The converted entries stored one after the other with
    [SetMapIndex]. *)
Definition stored (L : Libs) (acc conv : list (value * value)) : list (value * value) :=
  foldl (fun m kv' => SetMapIndex L m (fst kv') (snd kv')) acc conv.

(** A struct, or a pointer to a struct. *)
Definition struct_input (input : option value) : Prop :=
  (exists n fs vs, input = Some (VStruct n fs vs)) \/
  (exists e n fs vs, input = Some (VPtr e (Some (VStruct n fs vs)))).



(** ** Properties *)

(** *** The model of UTF-8 and of white space *)

(** Runes of two, three and four bytes; an overlong encoding, a
    surrogate and an encoding cut short are invalid. *)
Example DecodeRune_samples :
  DecodeRune (List.map char_of [0xC3; 0xA9]) = (0xE9, 2%nat) /\
  DecodeRune (List.map char_of [0xE2; 0x82; 0xAC; 0x21]) = (0x20AC, 3%nat) /\
  DecodeRune (List.map char_of [0xF0; 0x90; 0x8D; 0x88]) = (0x10348, 4%nat) /\
  DecodeRune (List.map char_of [0xC0; 0x80]) = (RuneError, 1%nat) /\
  DecodeRune (List.map char_of [0xED; 0xA0; 0x80]) = (RuneError, 1%nat) /\
  DecodeRune (List.map char_of [0xE2; 0x82]) = (RuneError, 1%nat).
Proof. repeat split. Qed.

(** The last rune of a string, with the last byte first. *)
Example DecodeLastRune_samples :
  DecodeLastRune (rev (List.map char_of [0x61; 0xE2; 0x82; 0xAC])) = (0x20AC, 3%nat) /\
  DecodeLastRune (rev (List.map char_of [0x61; 0xE2; 0x82])) = (RuneError, 1%nat) /\
  DecodeLastRune (rev (List.map char_of [0x61; 0x82; 0x82; 0x82; 0x82])) =
    (RuneError, 1%nat) /\
  DecodeLastRune (rev (List.map char_of [0x61])) = (0x61, 1%nat).
Proof. repeat split. Qed.

(** White space of ASCII and of Unicode is trimmed at both ends; a
    byte that is no rune is not white space. *)
Example TrimSpace_samples :
  TrimSpace "  a b 	" = "a b" /\
  TrimSpace (nbsp ++ " {x} " ++ of_bytes [0xE2; 0x80; 0xA8; 0xE3; 0x80; 0x80]) = "{x}" /\
  TrimSpace (nbsp ++ " " ++ of_bytes [0xC2; 0x85]) = "" /\
  TrimSpace (of_bytes [0xA0; 0x20; 0x78; 0x20; 0xC2]) = of_bytes [0xA0; 0x20; 0x78; 0x20; 0xC2].
Proof. repeat split. Qed.

(** [AutoDecode] on input with a no-break space in front: a brace
    after it is decoded as JSON first (both parsers of [no_libs]
    reject, and the JSON error is returned), and a no-break space
    alone is empty input. A no-break space around a part of a list
    is trimmed. *)
Example white_space_of_Unicode :
  AutoDecode no_libs (Some (VString (nbsp ++ "{x}"))) None =
    (None, Some (ErrParseJSON (ErrLib "json: no parser"))) /\
  AutoDecode no_libs (Some (VString nbsp)) None = (None, Some ErrEmptyInput) /\
  setValue no_libs NewDecoder (Some (VString ("a," ++ nbsp ++ "b"))) (TSlice TString)
    (VSlice TString None) =
    (VSlice TString (Some [VString "a"; VString "b"]), None).
Proof. repeat split. Qed.

(** *** The model on small documents *)

(** [ExampleDecodeJSON] of [mapstructure_test.go], from the document
    the generic JSON parse gives: strings into integers, a boolean
    and a list of strings. *)
Example ExampleDecodeJSON_document :
  DecodeMap no_libs
    (Some (doc [("id", VString "42"); ("name", VString "Example User");
                ("age", VString "25"); ("active", VString "yes");
                ("tags", VString "go,docker,k8s")]))
    (ptr_to TExampleUser (zero TExampleUser)) =
  (ptr_to TExampleUser
     (VStruct "ExampleUser" ExampleUser_fields
        [VInt I0 42; VString "Example User"; VString ""; VInt I0 25; VBool true;
         VFloat F64 0; VSlice TString (Some [VString "go"; VString "docker"; VString "k8s"]);
         zero TTime; zero TMetadata]),
   None).
Proof. reflexivity. Qed.

(** [TestCustomDecoder], first half, from the document the generic
    JSON parse gives: without weak typing the string does not convert
    to an [int], in either iteration order. *)
Example TestCustomDecoder_strict :
  let d := {| WeaklyTyped := false; TagName := "json";
              IgnoreUnknownKeys := false; ZeroFields := true |} in
  let failure :=
    Some (ErrField "ID" (ErrConvert (VString "not-a-number") TString (TInt I0))) in
  snd (decodeMap no_libs d (doc [("id", VString "not-a-number"); ("name", VString "Test")])
         (ptr_to TExampleUser (zero TExampleUser))) = failure /\
  snd (decodeMap no_libs d (doc [("name", VString "Test"); ("id", VString "not-a-number")])
         (ptr_to TExampleUser (zero TExampleUser))) = failure.
Proof. split; reflexivity. Qed.

(** [ExampleToMap]: the keys of the projection of an [ExampleUser]. *)
Example ExampleToMap_keys :
  match ToMap (Some (VStruct "ExampleUser" ExampleUser_fields
                       [VInt I0 1; VString "Test User"; VString "test@example.com";
                        VInt I0 0; VBool true; VFloat F64 0; VSlice TString None;
                        zero TTime; zero TMetadata])) with
  | inl m => List.map (fun kv => key_string (fst kv)) m
  | inr _ => []
  end =
  ["id"; "name"; "email"; "age"; "active"; "score"; "tags"; "created_at"; "metadata"].
Proof. reflexivity. Qed.

(** A decoder with the tag name [custom] resolves keys by that tag. *)
Example custom_tag_name :
  Decode no_libs
    {| WeaklyTyped := true; TagName := "custom";
       IgnoreUnknownKeys := true; ZeroFields := true |}
    (Some (VMap TString TInterface
             (Some (doc [("id", VString "123"); ("name", VString "Test")]))))
    (ptr_to TCustomTag (zero TCustomTag)) =
  (ptr_to TCustomTag (VStruct "CustomTag" CustomTag_fields [VInt I0 123; VString "Test"]),
   None).
Proof. reflexivity. Qed.

(** Without [ZeroFields] the field that the document does not name is
    kept. *)
Example zero_fields_off :
  Decode no_libs
    {| WeaklyTyped := true; TagName := "json";
       IgnoreUnknownKeys := false; ZeroFields := false |}
    (Some (VMap TString TInterface (Some (doc [("a", VString "updated")]))))
    (ptr_to TData (VStruct "Data" Data_fields [VString "initial"; VString "initial"])) =
  (ptr_to TData (VStruct "Data" Data_fields [VString "updated"; VString "initial"]),
   None).
Proof. reflexivity. Qed.

(** A string into a [*string], nil into a [*string], and a string of
    comma-separated parts into a [[]string]. *)
Example pointers_and_lists :
  DecodeMap no_libs
    (Some [(VString "str_ptr", VIface (Some (VString "hello")));
           (VString "nil_ptr", VIface None);
           (VString "tags", VIface (Some (VString "a, b ,c")))])
    (ptr_to TWithPointers (zero TWithPointers)) =
  (ptr_to TWithPointers
     (VStruct "WithPointers" WithPointers_fields
        [VPtr TString (Some (VString "hello"));
         VPtr TString None;
         VSlice TString (Some [VString "a"; VString "b"; VString "c"])]),
   None).
Proof. reflexivity. Qed.

(** A nil destination. *)
Example nil_output :
  Decode no_libs NewDecoder
    (Some (VMap TString TInterface (Some (doc [("test", VString "value")])))) None =
  (None, Some ErrInvalidOutput).
Proof. reflexivity. Qed.

(** [ToMap] leaves out the zero values of fields tagged [omitempty]. *)
Example ToMap_omitempty :
  ToMap (Some (VStruct "OmitEmpty" OmitEmpty_fields
                 [VString "present"; VString ""; VInt I0 0])) =
  inl [(VString "required", VIface (Some (VString "present")))].
Proof. reflexivity. Qed.

(** *** Unfolding [setValue] *)

Lemma setValue_on_eq L d sv t old :
  setValue_on L d sv t old =
  setValue_step L d (setValue_on L d) (setValue_on L d sv) sv t old.
Proof. destruct sv; destruct t; reflexivity. Qed.

Lemma set_content_setValue L d x t old :
  set_content (setValue_on L d) x t old = setValue L d (Interface x) t old.
Proof. destruct x as [| | | | | | | | |[c|]]; reflexivity. Qed.


(** *** Bytes and strings *)

Lemma char_of_byte_of c : char_of (byte_of c) = c.
Proof.
  unfold char_of, byte_of.
  assert (H : (N_of_ascii c < 256)%N) by apply N_ascii_bounded.
  rewrite Z.mod_small by lia.
  rewrite N2Z.id. apply ascii_N_embedding.
Qed.

Lemma string_of_bytes_of_string s : string_of_bytes (bytes_of_string s) = s.
Proof.
  induction s as [|c r IH]; simpl; [done|].
  by rewrite char_of_byte_of, IH.
Qed.

Lemma input_bytes_Decode L d data v output :
  input_bytes data = Some v ->
  Decode L d data output = Decode_bytes L d v output.
Proof.
  unfold input_bytes, Decode. intros H.
  repeat case_match; simplify_eq; reflexivity.
Qed.

(** *** String and byte-slice inputs (C10) *)

(** C10. For every string [s] and every destination, [Decode] of [s]
    gives the same destination and the same error as [Decode] of the
    byte slice [[]byte(s)]. *)
Theorem Decode_string_as_bytes L d s output :
  Decode L d (Some (VString s)) output = Decode L d (Some (byte_slice s)) output.
Proof. reflexivity. Qed.

(** *** Strings to booleans (C7) *)

Lemma true_words_not_false : Forall (fun w => w ∉ false_words) true_words.
Proof. apply (bool_decide_unpack _). by vm_compute. Qed.

Lemma ParseBool_true_lower :
  Forall (fun w => ToLower w ∈ true_words) ["1"; "t"; "T"; "TRUE"; "true"; "True"].
Proof. apply (bool_decide_unpack _). by vm_compute. Qed.

Lemma ParseBool_false_lower :
  Forall (fun w => ToLower w ∈ false_words) ["0"; "f"; "F"; "FALSE"; "false"; "False"].
Proof. apply (bool_decide_unpack _). by vm_compute. Qed.

(** What [strconv.ParseBool] accepts is, in lower case, in one of the
    two word lists: the call at line 395 never succeeds. *)
Lemma ParseBool_lower s :
  ToLower s ∉ true_words -> ToLower s ∉ false_words -> ParseBool s = None.
Proof.
  intros Ht Hf. unfold ParseBool.
  repeat case_bool_decide; try reflexivity; exfalso.
  - apply Ht. by eapply (proj1 (Forall_forall _ _) ParseBool_true_lower).
  - apply Hf. by eapply (proj1 (Forall_forall _ _) ParseBool_false_lower).
Qed.

(** C7. With weak typing, a string that is, in lower case, one of
    true, 1, t, yes, y, on sets a boolean target to true; one of
    false, 0, f, no, n, off sets it to false; a string outside both
    sets that [strconv.ParseBool] rejects fails with the conversion
    error and leaves the target as it was. *)
Theorem string_to_bool L d s old :
  WeaklyTyped d = true ->
  (ToLower s ∈ true_words ->
   setValue L d (Some (VString s)) TBool old = (VBool true, None)) /\
  (ToLower s ∈ false_words ->
   setValue L d (Some (VString s)) TBool old = (VBool false, None)) /\
  (ToLower s ∉ true_words -> ToLower s ∉ false_words -> ParseBool s = None ->
   setValue L d (Some (VString s)) TBool old =
   (old, Some (ErrConvert (VString s) TString TBool))).
Proof.
  intros Hw. unfold setValue. rewrite setValue_on_eq.
  unfold setValue_step, weak_convert, weak_string, string_switch. rewrite Hw.
  cbn [typeof]. change (AssignableTo TString TBool) with false. cbv iota.
  split; [|split].
  - intros Ht. by rewrite bool_decide_eq_true_2.
  - intros Hf.
    assert (Hn : ToLower s ∉ true_words).
    { intros Ht. by apply (proj1 (Forall_forall _ _) true_words_not_false _ Ht). }
    rewrite (bool_decide_eq_false_2 _ Hn). by rewrite bool_decide_eq_true_2.
  - intros Ht Hf Hp.
    rewrite (bool_decide_eq_false_2 _ Ht), (bool_decide_eq_false_2 _ Hf), Hp.
    reflexivity.
Qed.

Lemma string_to_bool_witness :
  setValue no_libs NewDecoder (Some (VString "ON")) TBool (VBool false) = (VBool true, None) /\
  setValue no_libs NewDecoder (Some (VString "No")) TBool (VBool true) = (VBool false, None) /\
  setValue no_libs NewDecoder (Some (VString "maybe")) TBool (VBool true) =
    (VBool true, Some (ErrConvert (VString "maybe") TString TBool)).
Proof.
  split; [|split].
  - apply (proj1 (string_to_bool no_libs NewDecoder "ON" (VBool false) eq_refl)).
    by apply (bool_decide_unpack _).
  - apply (proj1 (proj2 (string_to_bool no_libs NewDecoder "No" (VBool true) eq_refl))).
    by apply (bool_decide_unpack _).
  - apply (proj2 (proj2 (string_to_bool no_libs NewDecoder "maybe" (VBool true) eq_refl)));
      [by apply (bool_decide_unpack _) | by apply (bool_decide_unpack _) | reflexivity].
Defined.

(** *** The destination of [decodeMap] (C8) *)

(** A document of one entry into a pointer to an [int]: the entry is
    coerced, and the coercion fails. *)
Lemma single_entry_can_fail :
  length (doc [("value", VString "abc")]) = 1%nat /\
  is_struct (TInt I0) = false /\
  decodeMap no_libs NewDecoder (doc [("value", VString "abc")])
    (ptr_to (TInt I0) (VInt I0 0)) =
  (ptr_to (TInt I0) (VInt I0 0),
   Some (ErrConvert (VString "abc") TString (TInt I0))).
Proof. repeat split. Qed.

(** C8, amended. A destination that is nil, not a pointer or a nil
    pointer fails with the invalid-destination error and is left as
    it was. Behind a valid pointer to a value that is not a record, a
    document of exactly one entry gives what the coercion of its value
    into the destination gives, success or error; a document of any
    other size fails with the not-a-struct error. *)
Theorem decodeMap_destination L d m output :
  (~ valid_pointer output ->
   decodeMap L d m output = (output, Some ErrInvalidOutput)) /\
  (forall t rv, output = Some (VPtr t (Some rv)) -> is_struct t = false ->
     (forall k v, m = [(k, v)] ->
        decodeMap L d m output =
        (Some (VPtr t (Some (fst (setValue L d (Interface v) t rv)))),
         snd (setValue L d (Interface v) t rv))) /\
     (length m <> 1%nat ->
        decodeMap L d m output =
        (output, Some (ErrNotStructOutput (kind_of t))))).
Proof.
  split.
  - intros Hn. unfold decodeMap.
    destruct output as [[| | | | | | |e [rv|]| |]|]; try reflexivity.
    exfalso. apply Hn. by exists e, rv.
  - intros t rv -> Hs. split.
    + intros k v ->. unfold decodeMap, decodeMap_at. rewrite Hs. cbn [negb].
      rewrite set_content_setValue. by destruct (setValue L d (Interface v) t rv).
    + intros Hlen. unfold decodeMap, decodeMap_at. rewrite Hs. cbn [negb].
      destruct m as [|[k v] [|p r]]; try reflexivity. by destruct Hlen.
Qed.

Lemma decodeMap_destination_witness :
  decodeMap no_libs NewDecoder (doc [("value", VString "hello")]) None =
    (None, Some ErrInvalidOutput) /\
  decodeMap no_libs NewDecoder (doc [("value", VString "hello")])
    (ptr_to TString (VString "")) = (ptr_to TString (VString "hello"), None) /\
  decodeMap no_libs NewDecoder (doc [("a", VString "x"); ("b", VString "y")])
    (ptr_to TString (VString "")) =
    (ptr_to TString (VString ""), Some (ErrNotStructOutput String_)).
Proof.
  split; [|split].
  - apply (proj1 (decodeMap_destination no_libs NewDecoder _ None)).
    intros (t & rv & H). discriminate H.
  - apply (proj1 (proj2 (decodeMap_destination no_libs NewDecoder _ _)
                   TString (VString "") eq_refl eq_refl)
             (VString "value") (VIface (Some (VString "hello"))) eq_refl).
  - apply (proj2 (proj2 (decodeMap_destination no_libs NewDecoder _ _)
                   TString (VString "") eq_refl eq_refl)).
    simpl. lia.
Defined.

(** *** Format detection (C6) *)

Lemma IsSpace_RuneError : IsSpace RuneError = false.
Proof. reflexivity. Qed.

(** The first rune of a string, when it is white space, is the first
    rune of every string that extends it. *)
Lemma DecodeRune_app s x r w :
  DecodeRune s = (r, w) -> IsSpace r = true -> DecodeRune (s ++ x) = (r, w).
Proof.
  intros H Hr.
  assert (Hbad : forall n, (RuneError, n) = (r, w) -> False).
  { intros n [= <- _]. by rewrite IsSpace_RuneError in Hr. }
  unfold DecodeRune in *.
  destruct s as [|c0 [|c1 [|c2 [|c3 s']]]]; cbn [app];
    try (by destruct (Hbad _ H));
    destruct (rune_size (byte_of c0)) as [|[|[|[|[|n]]]]];
    try (by destruct (Hbad _ H)); try exact H.
Qed.

(** One round of [trim_left] on white space. *)
Lemma trim_left_step s r w :
  DecodeRune s = (r, w) -> IsSpace r = true ->
  exists u rest, s = u ++ rest /\ u <> [] /\ trim_left s = trim_left rest.
Proof.
  intros H Hr.
  assert (Hbad : forall n, (RuneError, n) = (r, w) -> False).
  { intros n [= <- _]. by rewrite IsSpace_RuneError in Hr. }
  destruct s as [|c0 r0]; [by destruct (Hbad _ H)|].
  cbn [trim_left]. rewrite H, Hr. unfold DecodeRune in H.
  destruct (rune_size (byte_of c0)) as [|[|[|[|[|n]]]]];
    try (by destruct (Hbad _ H)).
  - injection H as _ <-. by exists [c0], r0.
  - destruct r0 as [|c1 r1]; [by destruct (Hbad _ H)|].
    destruct (accepts _ _); [|by destruct (Hbad _ H)].
    injection H as _ <-. by exists [c0; c1], r1.
  - destruct r0 as [|c1 [|c2 r2]]; try (by destruct (Hbad _ H)).
    destruct (accepts _ _ && continues _); [|by destruct (Hbad _ H)].
    injection H as _ <-. by exists [c0; c1; c2], r2.
  - destruct r0 as [|c1 [|c2 [|c3 r3]]]; try (by destruct (Hbad _ H)).
    destruct (accepts _ _ && continues _ && continues _); [|by destruct (Hbad _ H)].
    injection H as _ <-. by exists [c0; c1; c2; c3], r3.
Qed.

Lemma trim_left_fix s : IsSpace (DecodeRune s).1 = false -> trim_left s = s.
Proof.
  intros H. destruct s as [|c0 r0]; [reflexivity|]. cbn [trim_left].
  destruct (DecodeRune (c0 :: r0)) as [r w]. cbn [fst] in H. by rewrite H.
Qed.

Lemma trim_left_ok s : IsSpace (DecodeRune (trim_left s)).1 = false.
Proof.
  remember (length s) as n eqn:Hn. revert s Hn.
  induction n as [n IH] using lt_wf_ind. intros s ->.
  destruct (DecodeRune s) as [r w] eqn:E.
  destruct (IsSpace r) eqn:Hr.
  - destruct (trim_left_step s r w E Hr) as (u & rest & -> & Hu & ->).
    apply (IH (length rest)); [|reflexivity].
    rewrite length_app. destruct u; [done|]. simpl. lia.
  - rewrite trim_left_fix; by rewrite E.
Qed.

(** The last rune of a string, when it is white space: the bytes of
    its encoding end the string, and decode to it. *)
Lemma trim_last_step rs r w :
  DecodeLastRune rs = (r, w) -> IsSpace r = true ->
  exists u rest,
    rs = rev u ++ rest /\ u <> [] /\ DecodeRune u = (r, w) /\
    trim_last rs = trim_last rest.
Proof.
  intros H Hr.
  assert (Hbad : forall n, (RuneError, n) = (r, w) -> False).
  { intros n [= <- _]. by rewrite IsSpace_RuneError in Hr. }
  destruct rs as [|c r1]; [by destruct (Hbad _ H)|].
  cbn [trim_last]. rewrite H, Hr. unfold DecodeLastRune in H.
  destruct (byte_of c <? 0x80) eqn:Hc.
  - injection H as <- <-. exists [c], r1. split; [done|]. split; [done|]. split; [|done].
    unfold DecodeRune, rune_size. by rewrite Hc.
  - destruct r1 as [|c1 r2]; [by destruct (Hbad _ H)|].
    destruct (RuneStart (byte_of c1)).
    { destruct (DecodeRune [c1; c]) as [r' w'] eqn:E.
      destruct (Nat.eqb w' (length [c1; c])) eqn:Hw; [|by destruct (Hbad _ H)].
      apply Nat.eqb_eq in Hw. cbn [length] in Hw. subst w'. injection H as <- <-.
      by exists [c1; c], r2. }
    destruct r2 as [|c2 r3]; [by destruct (Hbad _ H)|].
    destruct (RuneStart (byte_of c2)).
    { destruct (DecodeRune [c2; c1; c]) as [r' w'] eqn:E.
      destruct (Nat.eqb w' (length [c2; c1; c])) eqn:Hw; [|by destruct (Hbad _ H)].
      apply Nat.eqb_eq in Hw. cbn [length] in Hw. subst w'. injection H as <- <-.
      by exists [c2; c1; c], r3. }
    destruct r3 as [|c3 r4]; [by destruct (Hbad _ H)|].
    destruct (RuneStart (byte_of c3)); [|by destruct (Hbad _ H)].
    destruct (DecodeRune [c3; c2; c1; c]) as [r' w'] eqn:E.
    destruct (Nat.eqb w' (length [c3; c2; c1; c])) eqn:Hw; [|by destruct (Hbad _ H)].
    apply Nat.eqb_eq in Hw. cbn [length] in Hw. subst w'. injection H as <- <-.
    by exists [c3; c2; c1; c], r4.
Qed.

Lemma trim_last_fix rs : IsSpace (DecodeLastRune rs).1 = false -> trim_last rs = rs.
Proof.
  intros H. destruct rs as [|c r1]; [reflexivity|]. cbn [trim_last].
  destruct (DecodeLastRune (c :: r1)) as [r w]. cbn [fst] in H. by rewrite H.
Qed.

Lemma trim_last_ok rs : IsSpace (DecodeLastRune (trim_last rs)).1 = false.
Proof.
  remember (length rs) as n eqn:Hn. revert rs Hn.
  induction n as [n IH] using lt_wf_ind. intros rs ->.
  destruct (DecodeLastRune rs) as [r w] eqn:E.
  destruct (IsSpace r) eqn:Hr.
  - destruct (trim_last_step rs r w E Hr) as (u & rest & -> & Hu & _ & ->).
    apply (IH (length rest)); [|reflexivity].
    rewrite length_app, length_rev. destruct u; [done|]. simpl. lia.
  - rewrite trim_last_fix; by rewrite E.
Qed.

(** Dropping white space at the end leaves the start of the string
    free of white space. *)
Lemma trim_last_keeps_left rs :
  IsSpace (DecodeRune (rev rs)).1 = false ->
  IsSpace (DecodeRune (rev (trim_last rs))).1 = false.
Proof.
  remember (length rs) as n eqn:Hn. revert rs Hn.
  induction n as [n IH] using lt_wf_ind. intros rs -> Hleft.
  destruct (DecodeLastRune rs) as [r w] eqn:E.
  destruct (IsSpace r) eqn:Hr.
  - destruct (trim_last_step rs r w E Hr) as (u & rest & -> & Hu & _ & ->).
    apply (IH (length rest)); [|reflexivity|].
    + rewrite length_app, length_rev. destruct u; [done|]. simpl. lia.
    + rewrite rev_app_distr, rev_involutive in Hleft.
      destruct (DecodeRune (rev rest)) as [r' w'] eqn:E'.
      destruct (IsSpace r') eqn:Hr'; [|done].
      by rewrite (DecodeRune_app _ u _ _ E' Hr') in Hleft.
  - rewrite trim_last_fix; [done|by rewrite E].
Qed.

Lemma trim_right_left_idem s :
  trim_right (trim_left (trim_right (trim_left s))) = trim_right (trim_left s).
Proof.
  unfold trim_right.
  pose proof (trim_last_keeps_left (rev (trim_left s))) as Hleft.
  rewrite rev_involutive in Hleft. specialize (Hleft (trim_left_ok s)).
  rewrite (trim_left_fix _ Hleft), rev_involutive.
  by rewrite (trim_last_fix _ (trim_last_ok _)).
Qed.

(** Trimming twice is trimming once. *)
Lemma TrimSpace_idem s : TrimSpace (TrimSpace s) = TrimSpace s.
Proof.
  unfold TrimSpace.
  by rewrite list_ascii_of_string_of_list_ascii, trim_right_left_idem.
Qed.

(** [DecodeJSON] on trimmed input that opens with a brace or a bracket
    decodes JSON: the YAML parse of lines 67-74 is skipped. *)
Lemma DecodeJSON_json_shaped L raw c output :
  first_byte (TrimSpace raw) = Some c ->
  c = "{"%char \/ c = "["%char ->
  DecodeJSON L (Some (byte_slice (TrimSpace raw))) output =
  Decode_json L NewDecoder (TrimSpace raw) output.
Proof.
  intros Hc Hj. unfold DecodeJSON, Decode, byte_slice, slice_elems.
  rewrite string_of_bytes_of_string. unfold Decode_bytes, looks_like_yaml.
  rewrite TrimSpace_idem, Hc. by destruct Hj as [-> | ->].
Qed.

(** C6. [AutoDecode] on a byte slice or a string: input that is empty
    after trimming fails with the empty-input error; input whose
    first byte after trimming is a brace or a bracket is decoded as
    JSON first, as YAML only when that failed, and when both fail the
    JSON error is returned; any other input is decoded as YAML only. *)
Theorem AutoDecode_order L data raw output :
  input_bytes data = Some raw ->
  (first_byte (TrimSpace raw) = None ->
   AutoDecode L data output = (output, Some ErrEmptyInput)) /\
  (forall c, first_byte (TrimSpace raw) = Some c ->
     c = "{"%char \/ c = "["%char ->
     AutoDecode L data output =
     match Decode_json L NewDecoder (TrimSpace raw) output with
     | (out1, None) => (out1, None)
     | (out1, Some err) =>
         match DecodeYAML L (Some (byte_slice (TrimSpace raw))) out1 with
         | (out2, None) => (out2, None)
         | (out2, Some _) => (out2, Some err)
         end
     end) /\
  (forall c, first_byte (TrimSpace raw) = Some c ->
     c <> "{"%char -> c <> "["%char ->
     AutoDecode L data output =
     DecodeYAML L (Some (byte_slice (TrimSpace raw))) output).
Proof.
  intros Hin. unfold AutoDecode. rewrite Hin. split; [|split].
  - intros ->. reflexivity.
  - intros c Hc Hj. rewrite Hc.
    rewrite (DecodeJSON_json_shaped L raw c output Hc Hj).
    by destruct Hj as [-> | ->].
  - intros c Hc H1 H2. rewrite Hc.
    apply Ascii.eqb_neq in H1, H2. by rewrite H1, H2.
Qed.

Lemma AutoDecode_order_witness :
  AutoDecode no_libs (Some (VString "   ")) None = (None, Some ErrEmptyInput) /\
  AutoDecode no_libs (Some (VString " {id: 1} ")) None =
    (None, Some (ErrParseJSON (ErrLib "json: no parser"))) /\
  AutoDecode no_libs (Some (VString "id: 1")) None =
    (None, Some (ErrParseYAML (ErrLib "yaml: no parser"))).
Proof.
  split; [|split].
  - apply (proj1 (AutoDecode_order no_libs (Some (VString "   ")) "   " None eq_refl)).
    reflexivity.
  - apply (proj1 (proj2 (AutoDecode_order no_libs (Some (VString " {id: 1} "))
                           " {id: 1} " None eq_refl)) "{"%char eq_refl).
    by left.
  - apply (proj2 (proj2 (AutoDecode_order no_libs (Some (VString "id: 1"))
                           "id: 1" None eq_refl)) "i"%char eq_refl);
      discriminate.
Defined.

(** *** The native fast path (C9) *)

(** On the document [null] the native JSON decoding would succeed and
    store nothing, but [Decode] parses the input as YAML first and
    runs [decodeMap] on the empty document, which zeroes the record. *)
Lemma null_bypasses_fast_path :
  let output := ptr_to TItem (VStruct "Item" Item_fields [VInt I0 7]) in
  json_Unmarshal null_libs "null" output = (output, None) /\
  Decode null_libs strict_decoder (Some (byte_slice "null")) output =
    (ptr_to TItem (zero TItem), None) /\
  Decode null_libs strict_decoder (Some (byte_slice "null")) output <>
    (output, None).
Proof. repeat split. discriminate. Qed.

(** C9, amended. For every byte-slice or string input that reaches the
    native JSON decoding (its first byte after trimming is a brace or
    a bracket, or it is empty after trimming, or the YAML parse into a
    map rejected it) and that this decoding unmarshals without error,
    [Decode] returns success with the destination as the native
    decoding left it, whatever the decoder's configuration:
    [decodeMap] is not run, and no unknown-key error can arise. *)
Theorem native_fast_path L d data v output out1 :
  input_bytes data = Some v ->
  looks_like_yaml v = false \/ snd (yaml_Unmarshal L v new_doc) <> None ->
  json_Unmarshal L v output = (out1, None) ->
  Decode L d data output = (out1, None).
Proof.
  intros Hin Hreach Hjson. rewrite (input_bytes_Decode L d data v output Hin).
  unfold Decode_bytes.
  assert (Hj : Decode_json L d v output = (out1, None)).
  { unfold Decode_json. by rewrite Hjson. }
  destruct Hreach as [-> | Hy]; [exact Hj|].
  destruct (looks_like_yaml v); [|exact Hj].
  destruct (yaml_Unmarshal L v new_doc) as [m [e|]]; [exact Hj|].
  by destruct Hy.
Qed.

Lemma native_fast_path_witness :
  Decode item_libs strict_decoder (Some (VString item_json))
    (ptr_to TItem (zero TItem)) =
  (ptr_to TItem (VStruct "Item" Item_fields [VInt I0 1]), None).
Proof.
  apply (native_fast_path item_libs strict_decoder (Some (VString item_json))
           item_json (ptr_to TItem (zero TItem))).
  - reflexivity.
  - left. reflexivity.
  - reflexivity.
Defined.

(** *** Fields tagged [-] (C1) *)

(** C1, on the code. The field [Secret] of [Account] carries the tag
    [-]; the key [secret], its name in lower case, still resolves to
    it and populates it: the field is not excluded from decoding. *)
Theorem dash_field_is_populated L :
  tag_get (ftags (mkField "Secret" [("json", "-")] TString)) "json" = "-" /\
  lookup_field (fieldMap NewDecoder Account_fields) "secret" = Some 1%nat /\
  decodeMap L NewDecoder (doc [("secret", VString "leak")])
    (ptr_to TAccount (zero TAccount)) =
  (ptr_to TAccount (VStruct "Account" Account_fields [VInt I0 0; VString "leak"]),
   None).
Proof. repeat split. Qed.

(** The sibling path: [ToMap] leaves the same field out. *)
Lemma ToMap_skips_dash_field :
  ToMap (Some (VStruct "Account" Account_fields [VInt I0 5; VString "leak"])) =
  inl [(VString "id", VIface (Some (VInt I0 5)))].
Proof. reflexivity. Qed.

(** *** The field index *)





(** *** Storing into a field *)




(** *** Strings to integers (C5) *)

Lemma is_digit_range c : is_digit c = true -> 0 <= byte_of c - 48 <= 9.
Proof. unfold is_digit. lia. Qed.

Lemma decimal_nonneg s : all_digits s = true -> 0 <= decimal s.
Proof.
  induction s as [|c r IH]; cbn [all_digits decimal]; [lia|].
  intros [Hc Hr]%andb_prop. apply is_digit_range in Hc.
  specialize (IH Hr). assert (0 <= 10 ^ Z.of_nat (String.length r)) by lia. nia.
Qed.

Lemma digits_acc_decimal s : forall acc,
  all_digits s = true ->
  digits_acc s acc = Some (acc * 10 ^ Z.of_nat (String.length s) + decimal s).
Proof.
  induction s as [|c r IH]; intros acc; cbn [all_digits digits_acc decimal String.length].
  - intros _. f_equal. simpl. lia.
  - intros [Hc Hr]%andb_prop. rewrite Hc, (IH _ Hr). f_equal.
    rewrite Nat2Z.inj_succ, Z.pow_succ_r by lia. ring.
Qed.

Lemma digits_number s : is_number s = true -> digits s = Some (decimal s).
Proof.
  destruct s as [|c r]; [discriminate|]. unfold is_number, digits.
  intros H. rewrite (digits_acc_decimal _ 0 H). f_equal.
Qed.


Lemma wrap_signed_fits w n : fits w n -> wrap_signed (ibits w) n = n.
Proof.
  unfold fits, wrap_signed. intros H.
  assert (E : 2 ^ ibits w = 2 * 2 ^ (ibits w - 1)).
  { replace (ibits w) with (Z.succ (ibits w - 1)) at 1 by lia.
    apply Z.pow_succ_r. destruct w; simpl; lia. }
  rewrite Z.mod_small by lia. lia.
Qed.





(** *** Failed conversions and the target (C2) *)






(** *** Induction on values *)

Lemma value_parts_ind (P : value -> Prop) :
  (forall v, Forall P (parts v) -> P v) -> forall v, P v.
Proof.
  intros H. fix IH 1. intros v. apply H.
  destruct v as [| | | | |e xs|k e m|e p|n fs vs|c]; cbn [parts];
    try apply Forall_nil_2.
  - destruct xs as [l|]; cbn [slice_elems]; [|apply Forall_nil_2].
    induction l as [|x l IHl]; constructor; [apply IH|exact IHl].
  - destruct m as [l|]; cbn [map_entries]; [|apply Forall_nil_2].
    induction l as [|[a b] l IHl]; cbn [flat_map fst snd app];
      [apply Forall_nil_2|].
    constructor; [apply IH|]. constructor; [apply IH|exact IHl].
  - destruct p as [p|]; [|apply Forall_nil_2].
    constructor; [apply IH|apply Forall_nil_2].
  - induction vs as [|x l IHl]; constructor; [apply IH|exact IHl].
  - destruct c as [c|]; [|apply Forall_nil_2].
    constructor; [apply IH|apply Forall_nil_2].
Qed.

(** *** Unknown keys (C3) *)




Section SuccessKept.
Context (L : Libs) (d : MapDecoder).
Context (f g : value -> ty -> value -> outcome).





Lemma Forall_parts_entries (P : value -> Prop) es :
  Forall P (flat_map (fun kv : value * value => [fst kv; snd kv]) es) ->
  Forall (fun kv => P (fst kv) /\ P (snd kv)) es.
Proof.
  induction es as [|[k v] es IH]; cbn [flat_map app fst snd]; [constructor|].
  intros H. apply Forall_cons_1 in H as [Hk H]. apply Forall_cons_1 in H as [Hv H].
  constructor; [done|by apply IH].
Qed.


End SuccessKept.






(** *** Type identity *)

Lemma type_parts_ind (P : ty -> Prop) :
  (forall t, Forall P (type_parts t) -> P t) -> forall t, P t.
Proof.
  intros H. fix IH 1. intros t. apply H.
  destruct t as [| | | | | |e|k e|e|n fs]; cbn [type_parts];
    repeat (constructor; try apply IH).
  induction fs as [|f fs IHfs]; constructor; [apply IH|exact IHfs].
Qed.

Lemma isize_eqb_eq a b : isize_eqb a b = true <-> a = b.
Proof. destruct a, b; split; (done || discriminate). Qed.

Lemma fsize_eqb_eq a b : fsize_eqb a b = true <-> a = b.
Proof. destruct a, b; split; (done || discriminate). Qed.

Lemma tags_eqb_eq a : forall b, tags_eqb a b = true <-> a = b.
Proof.
  induction a as [|[k v] a IH]; intros [|[k' v'] b]; cbn [tags_eqb];
    try (split; (done || discriminate)).
  rewrite !andb_true_iff, !String.eqb_eq, IH. split.
  - by intros [[-> ->] ->].
  - by intros [= -> -> ->].
Qed.

Lemma ty_eqb_eq a : forall b, ty_eqb a b = true <-> a = b.
Proof.
  induction a as [a IH] using type_parts_ind.
  destruct a as [| | | | | |e|k e|e|n fs]; intros [| | | | | |e'|k' e'|e'|n' fs'];
    cbn [ty_eqb]; try (split; (done || discriminate)); cbn [type_parts] in IH.
  - rewrite isize_eqb_eq. split; [by intros ->|by intros [= ->]].
  - rewrite isize_eqb_eq. split; [by intros ->|by intros [= ->]].
  - rewrite fsize_eqb_eq. split; [by intros ->|by intros [= ->]].
  - apply Forall_cons_1 in IH as [IHe _]. rewrite IHe.
    split; [by intros ->|by intros [= ->]].
  - apply Forall_cons_1 in IH as [IHk IH]. apply Forall_cons_1 in IH as [IHe _].
    rewrite andb_true_iff, IHk, IHe. split; [by intros [-> ->]|by intros [= -> ->]].
  - apply Forall_cons_1 in IH as [IHe _]. rewrite IHe.
    split; [by intros ->|by intros [= ->]].
  - rewrite andb_true_iff, String.eqb_eq.
    enough (Hfs : forall fs',
      (fix fields_eqb (l l' : list field) {struct l} : bool :=
         match l, l' with
         | [], [] => true
         | f :: r, f' :: r' =>
             String.eqb (fname f) (fname f') && tags_eqb (ftags f) (ftags f') &&
             ty_eqb (ftype f) (ftype f') && fields_eqb r r'
         | _, _ => false
         end) fs fs' = true <-> fs = fs').
    { rewrite Hfs. split; [by intros [-> ->]|by intros [= -> ->]]. }
    clear fs'. induction fs as [|f fs IHfs]; intros [|f' fs'];
      try (split; (done || discriminate)).
    cbn [List.map] in IH. apply Forall_cons_1 in IH as [IHf IH].
    rewrite !andb_true_iff, String.eqb_eq, tags_eqb_eq, IHf, (IHfs IH).
    destruct f, f'; cbn [fname ftags ftype]. split.
    + by intros [[[-> ->] ->] ->].
    + by intros [= -> -> -> ->].
Qed.

Lemma ty_eqb_refl t : ty_eqb t t = true.
Proof. by apply ty_eqb_eq. Qed.

(** *** Well-formed values *)



(** *** Round trip through [ToMap] (C4) *)


Lemma map_store_Forall (Q : value * value -> Prop) acc name x :
  Forall (fun e => Q e /\ string_key e) acc ->
  Q (VString name, x) ->
  Forall (fun e => Q e /\ string_key e) (map_store acc name x).
Proof.
  intros Hacc Hx. induction Hacc as [|[k v] r [Hq [s Hs]] Hr IH]; cbn [map_store].
  - constructor; [|constructor]. split; [done|by exists name].
  - cbn [fst] in Hs. subst k. cbn [key_string].
    destruct (String.eqb s name) eqn:E.
    + apply String.eqb_eq in E as ->. constructor; [|done]. split; [done|by exists name].
    + constructor; [|done]. split; [done|by exists s].
Qed.



(** The projection consists of entries of fields. *)
Lemma ToMap_fields_sound (Q : value * value -> Prop) fr : forall vr acc,
  (forall i f v name,
     fr !! i = Some f -> vr !! i = Some v ->
     is_exported_name (fname f) = true -> ToMap_name f = Some name ->
     Q (VString name, to_iface (Interface v))) ->
  Forall (fun e => Q e /\ string_key e) acc ->
  Forall (fun e => Q e /\ string_key e) (ToMap_fields fr vr acc).
Proof.
  induction fr as [|f fr IH]; intros [|v vr] acc HQ Hacc; cbn [ToMap_fields]; try done.
  assert (HQ' : forall i f v name,
            fr !! i = Some f -> vr !! i = Some v ->
            is_exported_name (fname f) = true -> ToMap_name f = Some name ->
            Q (VString name, to_iface (Interface v))).
  { intros i. apply (HQ (S i)). }
  destruct (is_exported_name (fname f)) eqn:He; cbn [negb]; [|by apply IH].
  destruct (ToMap_name f) as [name|] eqn:Hn; [|by apply IH].
  destruct (IsZero v && omitempty f); [by apply IH|].
  apply IH; [done|]. apply map_store_Forall; [done|].
  by apply (HQ 0%nat f v name).
Qed.


Lemma ToMap_fields_string_keys fr vr acc :
  Forall string_key acc -> Forall string_key (ToMap_fields fr vr acc).
Proof.
  intros Hacc.
  assert (H : Forall (fun e => True /\ string_key e) (ToMap_fields fr vr acc)).
  { apply ToMap_fields_sound; [done|]. eapply Forall_impl; [exact Hacc|]. by intros e. }
  eapply Forall_impl; [exact H|]. by intros e [_ He].
Qed.


Lemma setValue_on_assignable L d sv t old :
  AssignableTo (typeof sv) t = true ->
  setValue_on L d sv t old = (assign t sv, None).
Proof.
  intros H. rewrite setValue_on_eq. unfold setValue_step. by rewrite H.
Qed.

Lemma AssignableTo_interface t : AssignableTo t TInterface = true.
Proof. unfold AssignableTo. destruct t; cbn; by rewrite ?orb_true_r. Qed.

Lemma AssignableTo_refl t : AssignableTo t t = true.
Proof. unfold AssignableTo. by rewrite ty_eqb_refl. Qed.






(** ** Further properties of the decoder *)

(** *** The field index: the field a key resolves to *)











(** *** Fields the document does not name *)









(** *** The record after a decoding, field by field *)





(** *** The iteration order of the document *)









(** Two keys that resolve to the same field: the entry iterated last
    wins, and the result depends on the iteration order. *)
Example same_field_order_matters :
  resolved_fields (fieldMap NewDecoder Item_fields)
    (doc [("id", VInt I0 1); ("ID", VInt I0 2)]) = [0; 0]%nat /\
  decodeMap no_libs NewDecoder (doc [("id", VInt I0 1); ("ID", VInt I0 2)])
    (ptr_to TItem (zero TItem)) =
    (ptr_to TItem (VStruct "Item" Item_fields [VInt I0 2]), None) /\
  decodeMap no_libs NewDecoder (doc [("ID", VInt I0 2); ("id", VInt I0 1)])
    (ptr_to TItem (zero TItem)) =
    (ptr_to TItem (VStruct "Item" Item_fields [VInt I0 1]), None).
Proof. repeat split. Qed.

(** *** The errors of [decodeMap] *)




Section Quiet.
Context (L : Libs) (d : MapDecoder) (Hd : IgnoreUnknownKeys d = true).
Context (f : value -> ty -> value -> outcome).

Lemma convert_elems_quiet e xs ys err :
  Forall (quiet (set_content f)) xs ->
  convert_elems f e xs = (ys, Some err) -> reports_unknown_field err = false.
Proof.
  intros Hxs. revert ys. induction Hxs as [|x r Hx Hr IH]; intros ys; [done|].
  cbn [convert_elems].
  destruct (set_content f x e (zero e)) as [y [e1|]] eqn:E.
  - intros [= _ <-]. by eapply Hx.
  - destruct (convert_elems f e r) as [zs [e1|]]; [|done].
    intros [= _ <-]. by eapply IH.
Qed.

Lemma convert_entries_quiet kt et es :
  Forall (fun kv => quiet (set_content f) (fst kv) /\ quiet (set_content f) (snd kv)) es ->
  forall acc r err,
  convert_entries L f kt et es acc = (r, Some err) -> reports_unknown_field err = false.
Proof.
  induction 1 as [|[k v] es [Hk Hv] Hes IH]; intros acc r err; [done|].
  cbn [convert_entries]. cbn [fst snd] in Hk, Hv.
  destruct (set_content f k kt (zero kt)) as [nk [e1|]] eqn:Ek.
  - intros [= _ <-]. cbn [reports_unknown_field]. by eapply Hk.
  - destruct (set_content f v et (zero et)) as [nv [e1|]] eqn:Ev.
    + intros [= _ <-]. cbn [reports_unknown_field]. by eapply Hv.
    + apply IH.
Qed.

Lemma decode_entries_quiet fs fm es :
  Forall (fun kv => quiet (set_content f) (snd kv)) es ->
  forall rv unk rv' unk' err,
  decode_entries f fs fm es rv unk = (rv', unk', Some err) ->
  reports_unknown_field err = false.
Proof.
  induction 1 as [|[k v] es Hv Hes IH]; intros rv unk rv' unk' err; [done|].
  cbn [decode_entries]. cbn [snd] in Hv.
  destruct (lookup_field fm (key_string k)) as [i|]; [|apply IH].
  destruct (fs !! i) as [fd|]; [|by intros [= _ _ <-]].
  destruct (negb (CanSet fd)); [apply IH|].
  destruct (set_content f v (ftype fd) (Field rv i)) as [x [e1|]] eqn:E; [|apply IH].
  intros [= _ _ <-]. cbn [reports_unknown_field]. by eapply Hv.
Qed.

Lemma decodeMap_at_quiet es t old x err :
  Forall (fun kv => quiet (set_content f) (snd kv)) es ->
  decodeMap_at d f es t old = (x, Some err) -> reports_unknown_field err = false.
Proof.
  intros Hes. unfold decodeMap_at. destruct (negb (is_struct t)).
  - destruct es as [|[k v] [|p r]]; try by intros [= _ <-].
    apply Forall_cons_1 in Hes as [Hv _]. apply Hv.
  - destruct (decode_entries f _ _ es _ []) as [[rv1 unk1] [e1|]] eqn:E.
    + intros [= _ <-]. by eapply decode_entries_quiet.
    + rewrite Hd. cbn [negb]. by destruct unk1.
Qed.

Lemma setValue_step_quiet self sv t old x err :
  Forall (quiet (set_content f)) (parts sv) ->
  (forall e o y e1, t = TPtr e -> self e o = (y, Some e1) ->
                    reports_unknown_field e1 = false) ->
  setValue_step L d f self sv t old = (x, Some err) ->
  reports_unknown_field err = false.
Proof.
  intros Hparts Hself. unfold setValue_step, last_resort.
  destruct (AssignableTo (typeof sv) t); [done|].
  destruct (weak_convert L d sv t); [done|].
  destruct t as [| | | | | |e|kt et|e|n fs];
    try (destruct (ConvertibleTo (typeof sv) _); [done|by intros [= _ <-]]).
  - destruct sv as [| | | | |e' xs| | | |];
      try (destruct (ConvertibleTo _ _); [done|by intros [= _ <-]]).
    cbn [parts] in Hparts.
    destruct xs as [l|]; cbn [slice_elems] in Hparts; [|done].
    destruct (convert_elems f e l) as [ys [e1|]] eqn:E; [|done].
    intros [= _ <-]. by eapply convert_elems_quiet.
  - destruct sv as [| | | | | |k' e' m| | |];
      try (destruct (ConvertibleTo _ _); [done|by intros [= _ <-]]).
    cbn [parts] in Hparts.
    destruct m as [l|]; cbn [map_entries] in Hparts; [|done].
    destruct (convert_entries L f kt et l []) as [es [e1|]] eqn:E; [|done].
    intros [= _ <-]. apply Forall_parts_entries in Hparts.
    by eapply convert_entries_quiet.
  - destruct sv as [| | | | | | |e' [p|]| |];
      try (destruct (self e (zero e)) as [y [e1|]] eqn:E; [|done];
           intros [= _ <-]; by eapply Hself).
    cbn [parts] in Hparts. apply Forall_cons_1 in Hparts as [Hp _].
    destruct (set_content f p e (zero e)) as [y [e1|]] eqn:E; [|done].
    intros [= _ <-]. by eapply Hp.
  - destruct sv as [| | | | | |k' e' m| | |];
      try (destruct (ConvertibleTo _ _); [done|by intros [= _ <-]]).
    cbn [parts] in Hparts.
    destruct (is_doc (VMap k' e' m));
      [|destruct (ConvertibleTo _ _); [done|by intros [= _ <-]]].
    apply Forall_parts_entries in Hparts.
    assert (Hv : Forall (fun kv => quiet (set_content f) (snd kv)) (map_entries m)).
    { eapply Forall_impl; [exact Hparts|]. by intros kv [_ H]. }
    destruct m as [l|]; cbn [map_entries] in Hv; by apply decodeMap_at_quiet.
Qed.

End Quiet.

Lemma setValue_on_quiet L d v :
  IgnoreUnknownKeys d = true ->
  quiet (setValue_on L d) v /\ quiet (set_content (setValue_on L d)) v.
Proof.
  intros Hd. induction v as [v IH] using value_parts_ind.
  assert (Hv : quiet (setValue_on L d) v).
  { intros t. induction t as [| | | | | |e _|kt _ et _|e IHe|n fs];
      intros old x err; rewrite !setValue_on_eq;
      apply setValue_step_quiet; try done;
      try (eapply Forall_impl; [exact IH|]; by intros p [_ Hp]);
      try (intros e' o y e1 He'; discriminate He').
    intros e' o y e1 [= <-]. apply IHe. }
  split; [exact Hv|].
  destruct v as [| | | | | | | | |[c|]]; try exact Hv.
  - cbn [parts] in IH. apply Forall_cons_1 in IH as [[Hc _] _]. exact Hc.
  - by intros t old x e.
Qed.

(** X8. A decoder that ignores unknown keys never returns an
    unknown-field error, from the record or from any record nested in
    it. *)
Theorem ignored_keys_never_reported L d m output out err :
  IgnoreUnknownKeys d = true ->
  decodeMap L d m output = (out, Some err) ->
  reports_unknown_field err = false.
Proof.
  intros Hd. unfold decodeMap.
  destruct output as [[| | | | | | |t [rv|]| |]|]; try by intros [= _ <-].
  destruct (decodeMap_at d (setValue_on L d) m t rv) as [rv' e] eqn:E.
  intros [= _ ->]. eapply (decodeMap_at_quiet d Hd); [|exact E].
  apply Forall_forall. intros kv _. by apply setValue_on_quiet.
Qed.

Lemma ignored_keys_never_reported_witness :
  reports_unknown_field
    (ErrField "Inner" (ErrField "B" (ErrConvert (VString "x") TString (TInt I0)))) = false.
Proof.
  apply (ignored_keys_never_reported no_libs NewDecoder
           (doc [("inner", VMap TString TInterface
                             (Some (doc [("zzz", VInt I0 7); ("b", VString "x")])))])
           (ptr_to TOuter (zero TOuter))
           (ptr_to TOuter (zero TOuter)) _ eq_refl).
  reflexivity.
Defined.

(** *** What the destination held before *)

Lemma setValue_forgets L d source t old old' :
  ZeroFields d = true ->
  snd (setValue L d source t old) = snd (setValue L d source t old') /\
  (snd (setValue L d source t old) = None ->
   fst (setValue L d source t old) = fst (setValue L d source t old')).
Proof.
  intros Hz. destruct source as [sv|]; cbn [setValue]; [|done].
  rewrite !setValue_on_eq. unfold setValue_step, last_resort.
  destruct (AssignableTo (typeof sv) t); [done|].
  destruct (weak_convert L d sv t); [done|].
  destruct t as [| | | | | |e|kt et|e|n fs];
    try (destruct (ConvertibleTo (typeof sv) _); done).
  - destruct sv; try (destruct (ConvertibleTo _ _); done).
    destruct xs as [l|].
    + by destruct (convert_elems (setValue_on L d) e l) as [ys [err|]].
    + done.
  - destruct sv; try (destruct (ConvertibleTo _ _); done).
    destruct m as [l|].
    + by destruct (convert_entries L (setValue_on L d) kt et l []) as [es [err|]].
    + done.
  - destruct sv as [| | | | | | |e' [p|]| |];
      try (by destruct (setValue_on L d _ e (zero e)) as [y [err|]]);
      try done.
    by destruct (set_content (setValue_on L d) p e (zero e)) as [y [err|]].
  - destruct sv; try (destruct (ConvertibleTo _ _); done).
    destruct (is_doc (VMap k e m)); [|destruct (ConvertibleTo _ _); done].
    unfold decodeMap_at. cbn [is_struct negb]. rewrite Hz. by destruct m.
Qed.

(** X9. With [ZeroFields], what a decoding returns does not depend on
    what the destination held: the error is the same from any two
    states of the destination, and so is the destination after a
    decoding that succeeds. *)
Theorem zero_fields_forgets L d m t rv rv' :
  ZeroFields d = true ->
  snd (decodeMap L d m (Some (VPtr t (Some rv)))) =
    snd (decodeMap L d m (Some (VPtr t (Some rv')))) /\
  (snd (decodeMap L d m (Some (VPtr t (Some rv)))) = None ->
   fst (decodeMap L d m (Some (VPtr t (Some rv)))) =
     fst (decodeMap L d m (Some (VPtr t (Some rv'))))).
Proof.
  intros Hz. unfold decodeMap, decodeMap_at.
  destruct (negb (is_struct t)).
  - destruct m as [|[k v] [|p r]]; try done.
    rewrite !set_content_setValue.
    destruct (setValue_forgets L d (Interface v) t rv rv' Hz) as [He Hs].
    destruct (setValue L d (Interface v) t rv) as [x e],
             (setValue L d (Interface v) t rv') as [x' e'].
    cbn [fst snd] in *. split; [done|]. intros ->. by rewrite Hs.
  - rewrite Hz. done.
Qed.

Lemma zero_fields_forgets_witness :
  snd (decodeMap no_libs NewDecoder (doc [("a", VString "x")])
         (ptr_to TInner (VStruct "Inner" Inner_fields [VInt I0 1; VInt I0 2]))) =
  snd (decodeMap no_libs NewDecoder (doc [("a", VString "x")])
         (ptr_to TInner (zero TInner))).
Proof.
  apply (proj1 (zero_fields_forgets no_libs NewDecoder (doc [("a", VString "x")]) TInner
                  (VStruct "Inner" Inner_fields [VInt I0 1; VInt I0 2]) (zero TInner)
                  eq_refl)).
Defined.

(** *** [setValue]: sources of the type of the target *)

Lemma assign_same sv : assign (typeof sv) sv = sv.
Proof. by destruct sv. Qed.

(** X10. A source of the target's own type is stored as it is, and any
    source is stored as it is in a target of type [interface{}]:
    nothing is parsed or converted, whatever the decoder's settings. *)
Theorem direct_assignment L d sv old :
  setValue L d (Some sv) (typeof sv) old = (sv, None) /\
  setValue L d (Some sv) TInterface old = (assign TInterface sv, None) /\
  (typeof sv <> TInterface -> assign TInterface sv = VIface (Some sv)).
Proof.
  unfold setValue. split; [|split].
  - rewrite setValue_on_assignable by apply AssignableTo_refl. by rewrite assign_same.
  - by rewrite setValue_on_assignable by apply AssignableTo_interface.
  - intros Hne. destruct sv; try reflexivity. by destruct Hne.
Qed.

Lemma direct_assignment_witness :
  assign TInterface (VString "123") = VIface (Some (VString "123")).
Proof.
  apply (proj2 (proj2 (direct_assignment no_libs NewDecoder (VString "123") (VIface None)))).
  discriminate.
Defined.

(** *** [setValue]: strings *)

Lemma digits_signed s : signed_literal s = true -> digits s = None.
Proof.
  destruct s as [|c r]; [discriminate|]. cbn [signed_literal digits digits_acc].
  intros [->%Ascii.eqb_eq | ->%Ascii.eqb_eq]%orb_prop; reflexivity.
Qed.

Lemma setValue_string_uint L d s w old :
  WeaklyTyped d = true ->
  setValue L d (Some (VString s)) (TUint w) old =
  match ParseUint s (ibits w) with
  | Some i => (VUint w (wrap_unsigned (ibits w) i), None)
  | None => (old, Some (ErrConvert (VString s) TString (TUint w)))
  end.
Proof.
  intros Hw. unfold setValue. rewrite setValue_on_eq.
  unfold setValue_step, weak_convert, weak_string, string_switch. rewrite Hw.
  cbn [typeof]. change (AssignableTo TString (TUint w)) with false. cbv iota.
  by destruct (ParseUint s (ibits w)).
Qed.

(** X11. With weak typing, a string of decimal digits sets an unsigned
    integer target to its value when the value fits the width of the
    target; a value that does not fit, and every string that opens
    with a sign, fails with the conversion error and leaves the target
    as it was. *)
Theorem string_to_uint L d s w old :
  WeaklyTyped d = true ->
  (is_number s = true -> fits_unsigned w (decimal s) ->
   setValue L d (Some (VString s)) (TUint w) old = (VUint w (decimal s), None)) /\
  (is_number s = true -> ~ fits_unsigned w (decimal s) ->
   setValue L d (Some (VString s)) (TUint w) old =
   (old, Some (ErrConvert (VString s) TString (TUint w)))) /\
  (signed_literal s = true ->
   setValue L d (Some (VString s)) (TUint w) old =
   (old, Some (ErrConvert (VString s) TString (TUint w)))).
Proof.
  intros Hw. rewrite (setValue_string_uint L d s w old Hw). unfold ParseUint, fits_unsigned.
  split; [|split].
  - intros Hs Hfit. rewrite (digits_number s Hs).
    destruct (decimal s <? 2 ^ ibits w) eqn:E; [|lia].
    unfold wrap_unsigned. by rewrite Z.mod_small.
  - intros Hs Hfit. rewrite (digits_number s Hs).
    pose proof (decimal_nonneg s) as Hpos.
    destruct (decimal s <? 2 ^ ibits w) eqn:E; [|done].
    exfalso. apply Hfit. split; [|lia]. apply Hpos. by destruct s.
  - intros Hs. by rewrite (digits_signed s Hs).
Qed.

Lemma string_to_uint_witness :
  setValue no_libs NewDecoder (Some (VString "255")) (TUint I8) (VUint I8 1) =
    (VUint I8 255, None) /\
  setValue no_libs NewDecoder (Some (VString "256")) (TUint I8) (VUint I8 1) =
    (VUint I8 1, Some (ErrConvert (VString "256") TString (TUint I8))) /\
  setValue no_libs NewDecoder (Some (VString "-1")) (TUint I8) (VUint I8 1) =
    (VUint I8 1, Some (ErrConvert (VString "-1") TString (TUint I8))).
Proof.
  split; [|split].
  - apply (proj1 (string_to_uint no_libs NewDecoder "255" I8 (VUint I8 1) eq_refl));
      [reflexivity|]. unfold fits_unsigned. split; by vm_compute.
  - apply (proj1 (proj2 (string_to_uint no_libs NewDecoder "256" I8 (VUint I8 1) eq_refl)));
      [reflexivity|]. unfold fits_unsigned. intros [_ H]. by vm_compute in H.
  - apply (proj2 (proj2 (string_to_uint no_libs NewDecoder "-1" I8 (VUint I8 1) eq_refl))).
    reflexivity.
Defined.

Lemma Split_comma_length s : length (Split_comma s) = S (commas s).
Proof.
  induction s as [|c r IH]; [reflexivity|].
  cbn [Split_comma commas]. destruct (Ascii.eqb c ","); cbn [length].
  - by rewrite IH.
  - destruct (Split_comma r) as [|p ps]; [discriminate IH|exact IH].
Qed.

(** X12. With weak typing, a string source never fails on a []string
    target: the target holds the parts of the string between its
    commas, each with the white space at its ends removed; one part
    more than the string has commas, so that the empty string gives
    one empty element and not an empty slice. *)
Theorem string_to_strings L d s old :
  WeaklyTyped d = true ->
  exists x,
    setValue L d (Some (VString s)) (TSlice TString) old = (x, None) /\
    strings_of x = List.map TrimSpace (Split_comma s) /\
    length (strings_of x) = S (commas s) /\
    Forall trimmed (strings_of x).
Proof.
  intros Hw. eexists. split.
  - unfold setValue. rewrite setValue_on_eq.
    unfold setValue_step, weak_convert, weak_string, string_switch. rewrite Hw.
    reflexivity.
  - cbn [strings_of]. rewrite List.map_map. cbn [key_string].
    split; [reflexivity|]. split.
    + by rewrite length_map, Split_comma_length.
    + apply Forall_forall. intros p [q [<- _]]%list_elem_of_In%in_map_iff.
      apply TrimSpace_idem.
Qed.

Lemma string_to_strings_witness :
  exists x,
    setValue no_libs NewDecoder (Some (VString "a, b ,c")) (TSlice TString)
      (VSlice TString None) = (x, None) /\
    strings_of x = List.map TrimSpace (Split_comma "a, b ,c") /\
    length (strings_of x) = S (commas "a, b ,c") /\
    Forall trimmed (strings_of x).
Proof.
  apply (string_to_strings no_libs NewDecoder "a, b ,c" (VSlice TString None)).
  reflexivity.
Defined.

Lemma first_time_first L formats s : forall pre fmt post t,
  formats = pre ++ fmt :: post ->
  Forall (fun f => time_Parse L f s = None) pre ->
  time_Parse L fmt s = Some t ->
  first_time L formats s = Some t.
Proof.
  induction formats as [|f0 r IH]; intros pre fmt post t Heq Hpre Hfmt.
  - by destruct pre.
  - destruct pre as [|p pre]; cbn in Heq; injection Heq as -> ->; cbn [first_time].
    + by rewrite Hfmt.
    + apply Forall_cons_1 in Hpre as [Hp Hpre]. rewrite Hp. by eapply IH.
Qed.

Lemma first_time_none L formats s :
  Forall (fun f => time_Parse L f s = None) formats -> first_time L formats s = None.
Proof.
  induction 1 as [|f0 r Hf Hr IH]; [reflexivity|]. cbn [first_time]. by rewrite Hf.
Qed.

Lemma setValue_string_time L d s old :
  WeaklyTyped d = true ->
  setValue L d (Some (VString s)) TTime old =
  match first_time L time_formats s with
  | Some t => (t, None)
  | None => (old, Some (ErrConvert (VString s) TString TTime))
  end.
Proof.
  intros Hw. unfold setValue. rewrite setValue_on_eq.
  unfold setValue_step, weak_convert, weak_string. rewrite Hw.
  by destruct (first_time L time_formats s).
Qed.

(** X13. With weak typing, a string source on a [time.Time] target is
    parsed with the layouts RFC 3339, RFC 3339 with nanoseconds,
    date and time with a T, date and time with a space, date only, in
    this order: the target is set to the time of the first layout
    that parses the string; when none does, the conversion error is
    returned and the target is left as it was. *)
Theorem string_to_time L d s old :
  WeaklyTyped d = true ->
  (forall pre fmt post t,
     time_formats = pre ++ fmt :: post ->
     Forall (fun f => time_Parse L f s = None) pre ->
     time_Parse L fmt s = Some t ->
     setValue L d (Some (VString s)) TTime old = (t, None)) /\
  (Forall (fun f => time_Parse L f s = None) time_formats ->
   setValue L d (Some (VString s)) TTime old =
   (old, Some (ErrConvert (VString s) TString TTime))).
Proof.
  intros Hw. rewrite (setValue_string_time L d s old Hw). split.
  - intros pre fmt post t Heq Hpre Hfmt.
    by rewrite (first_time_first L _ s pre fmt post t Heq Hpre Hfmt).
  - intros Hnone. by rewrite (first_time_none L _ s Hnone).
Qed.

Lemma string_to_time_witness :
  setValue date_libs NewDecoder (Some (VString "2024-01-01")) TTime (zero TTime) =
    (new_year_2024, None) /\
  setValue no_libs NewDecoder (Some (VString "soon")) TTime (zero TTime) =
    (zero TTime, Some (ErrConvert (VString "soon") TString TTime)).
Proof.
  split.
  - apply (proj1 (string_to_time date_libs NewDecoder "2024-01-01" (zero TTime) eq_refl)
             (take 4 time_formats) "2006-01-02" [] new_year_2024 eq_refl);
      [repeat constructor|reflexivity].
  - apply (proj2 (string_to_time no_libs NewDecoder "soon" (zero TTime) eq_refl)).
    repeat constructor.
Defined.

(** X14. Without weak typing no string is parsed: a string source
    fails with the conversion error, and leaves the target as it
    was, on every boolean, integer, float, []string and time.Time
    target. *)
Theorem strict_strings_fail L d s t old :
  WeaklyTyped d = false ->
  parsed_target t = true ->
  setValue L d (Some (VString s)) t old = (old, Some (ErrConvert (VString s) TString t)).
Proof.
  intros Hw Ht. unfold setValue. rewrite setValue_on_eq.
  unfold setValue_step, weak_convert, last_resort. rewrite Hw. cbn [typeof].
  destruct t as [| | | | | |e|kt et|e|n fs]; try discriminate Ht; try reflexivity.
  cbn [parsed_target] in Ht. apply ty_eqb_eq in Ht as ->. reflexivity.
Qed.

Lemma strict_strings_fail_witness :
  setValue no_libs
    {| WeaklyTyped := false; TagName := "json"; IgnoreUnknownKeys := false;
       ZeroFields := true |}
    (Some (VString "123")) (TInt I0) (VInt I0 0) =
  (VInt I0 0, Some (ErrConvert (VString "123") TString (TInt I0))).
Proof.
  apply (strict_strings_fail no_libs _ "123" (TInt I0) (VInt I0 0)); reflexivity.
Defined.

(** *** [setValue]: numbers *)

Lemma ibits_pos w : 0 < ibits w.
Proof. destruct w; simpl; lia. Qed.

Lemma pow_ibits w : 2 ^ ibits w = 2 * 2 ^ (ibits w - 1).
Proof.
  replace (ibits w) with (Z.succ (ibits w - 1)) at 1 by lia.
  apply Z.pow_succ_r. pose proof (ibits_pos w). lia.
Qed.

Lemma wrap_signed_range w n : fits w (wrap_signed (ibits w) n).
Proof.
  unfold fits, wrap_signed. pose proof (pow_ibits w) as E.
  assert (0 < 2 ^ (ibits w - 1)).
  { apply Z.pow_pos_nonneg; [lia|]. pose proof (ibits_pos w). lia. }
  pose proof (Z.mod_pos_bound (n + 2 ^ (ibits w - 1)) (2 ^ ibits w)). lia.
Qed.

Lemma wrap_signed_congruent w n :
  (wrap_signed (ibits w) n - n) mod 2 ^ ibits w = 0.
Proof.
  unfold wrap_signed.
  assert (0 < 2 ^ ibits w).
  { apply Z.pow_pos_nonneg; [lia|]. pose proof (ibits_pos w). lia. }
  set (a := n + 2 ^ (ibits w - 1)).
  replace (a mod 2 ^ ibits w - 2 ^ (ibits w - 1) - n) with (a mod 2 ^ ibits w - a)
    by (unfold a; lia).
  rewrite Zminus_mod, Z.mod_mod by lia. by rewrite Z.sub_diag.
Qed.

(** X15. With weak typing, a float64 source never fails on a signed
    integer target: the target is set to the truncation of the number
    when that fits the width of the target, and wraps around modulo
    two to the width otherwise, with no error. *)
Theorem float_to_int_wraps L d f w old :
  WeaklyTyped d = true ->
  exists n,
    setValue L d (Some (VFloat F64 f)) (TInt w) old = (VInt w n, None) /\
    fits w n /\
    (n - float_to_int64 L f) mod 2 ^ ibits w = 0 /\
    (fits w (float_to_int64 L f) -> n = float_to_int64 L f).
Proof.
  intros Hw. exists (wrap_signed (ibits w) (float_to_int64 L f)). split; [|split; [|split]].
  - unfold setValue. rewrite setValue_on_eq.
    unfold setValue_step, weak_convert, weak_float. rewrite Hw. reflexivity.
  - apply wrap_signed_range.
  - apply wrap_signed_congruent.
  - apply wrap_signed_fits.
Qed.

Lemma float_to_int_wraps_witness :
  exists n,
    setValue no_libs NewDecoder (Some (VFloat F64 300)) (TInt I8) (VInt I8 0) =
      (VInt I8 n, None) /\
    fits I8 n /\
    (n - float_to_int64 no_libs 300) mod 2 ^ ibits I8 = 0 /\
    (fits I8 (float_to_int64 no_libs 300) -> n = float_to_int64 no_libs 300).
Proof.
  apply (float_to_int_wraps no_libs NewDecoder 300 I8 (VInt I8 0)). reflexivity.
Defined.

(** X16. A number of one numeric type on a target of another numeric
    type is converted by [reflect]'s [Convert], with no range check
    and no error, with or without weak typing; only a float64 source
    under weak typing takes the decoder's own conversion instead. An
    integer on a string target is converted by [Convert] as well. *)
Theorem numbers_convert L d sv t old :
  is_number_value sv = true ->
  typeof sv <> t ->
  (is_numeric t = true /\ (WeaklyTyped d = false \/ typeof sv <> TFloat F64)) \/
  (t = TString /\ is_integer (typeof sv) = true) ->
  setValue L d (Some sv) t old = (Convert L sv t, None).
Proof.
  intros Hn Hne Hcase. unfold setValue. rewrite setValue_on_eq.
  unfold setValue_step, last_resort.
  assert (Ha : AssignableTo (typeof sv) t = false).
  { unfold AssignableTo.
    assert (He : ty_eqb (typeof sv) t = false).
    { apply not_true_is_false. by intros ?%ty_eqb_eq. }
    rewrite He. cbn [orb].
    destruct Hcase as [[Ht _]|[-> _]]; [|by destruct sv].
    destruct sv, t; try discriminate Hn; try discriminate Ht; reflexivity. }
  rewrite Ha.
  assert (Hw : weak_convert L d sv t = None).
  { unfold weak_convert. destruct Hcase as [[Ht [->|Hf]]|[-> Hi]]; [reflexivity| |].
    - destruct (WeaklyTyped d); [|reflexivity].
      destruct sv as [| | |[|]| | | | | |]; try reflexivity; try discriminate Hn.
      by destruct Hf.
    - destruct (WeaklyTyped d); [|reflexivity].
      destruct sv; try reflexivity; discriminate Hi. }
  rewrite Hw.
  assert (Hc : ConvertibleTo (typeof sv) t = true).
  { unfold ConvertibleTo. destruct Hcase as [[Ht _]|[-> Hi]].
    - unfold is_number_value in Hn. by rewrite Hn, Ht.
    - by rewrite Hi, orb_true_r. }
  rewrite Hc.
  destruct Hcase as [[Ht _]|[-> _]]; [|reflexivity].
  destruct t; try discriminate Ht; reflexivity.
Qed.

Lemma numbers_convert_witness :
  setValue no_libs strict_decoder (Some (VInt I64 300)) (TInt I8) (VInt I8 0) =
    (Convert no_libs (VInt I64 300) (TInt I8), None) /\
  setValue no_libs strict_decoder (Some (VInt I0 65)) TString (VString "") =
    (Convert no_libs (VInt I0 65) TString, None).
Proof.
  split.
  - apply (numbers_convert no_libs strict_decoder (VInt I64 300) (TInt I8) (VInt I8 0));
      [reflexivity|discriminate|].
    left. split; [reflexivity|]. right. discriminate.
  - apply (numbers_convert no_libs strict_decoder (VInt I0 65) TString (VString ""));
      [reflexivity|discriminate|].
    right. by split.
Defined.

(** *** [setValue]: slices, maps, documents and pointers *)

Lemma convert_elems_Forall2 setv e xs ys :
  convert_elems setv e xs = (ys, None) <->
  Forall2 (fun x y => set_content setv x e (zero e) = (y, None)) xs ys.
Proof.
  revert ys. induction xs as [|x xs IH]; intros ys; cbn [convert_elems].
  - split; [intros [= <-]; constructor|by intros ->%Forall2_nil_inv_l].
  - split.
    + destruct (set_content setv x e (zero e)) as [y [err|]] eqn:E; [done|].
      destruct (convert_elems setv e xs) as [zs [err|]]; [done|].
      intros [= <-]. constructor; [done|by apply IH].
    + intros (y & zs & Hy & Hzs & ->)%Forall2_cons_inv_l.
      rewrite Hy. apply IH in Hzs. by rewrite Hzs.
Qed.

Lemma convert_elems_first_error setv e xs : forall ys err,
  convert_elems setv e xs = (ys, Some err) ->
  exists pre el post,
    xs = pre ++ el :: post /\
    Forall (fun p => snd (set_content setv p e (zero e)) = None) pre /\
    snd (set_content setv el e (zero e)) = Some err.
Proof.
  induction xs as [|x xs IH]; intros ys err; cbn [convert_elems]; [done|].
  destruct (set_content setv x e (zero e)) as [y [e1|]] eqn:E.
  - intros [= _ <-]. exists [], x, xs. split; [done|]. split; [constructor|by rewrite E].
  - destruct (convert_elems setv e xs) as [zs [e1|]] eqn:Hr; [|done].
    intros [= _ <-]. destruct (IH _ _ eq_refl) as (pre & el & post & -> & Hpre & Hel).
    exists (x :: pre), el, post. split; [done|]. split; [|done].
    constructor; [by rewrite E|done].
Qed.

Lemma setValue_slice L d e' e xs old :
  e' <> e ->
  setValue L d (Some (VSlice e' xs)) (TSlice e) old =
  match convert_elems (setValue_on L d) e (slice_elems xs) with
  | (ys, None) => (VSlice e (Some ys), None)
  | (_, Some err) => (old, Some err)
  end.
Proof.
  intros Hne. unfold setValue. rewrite setValue_on_eq. unfold setValue_step.
  assert (Ha : AssignableTo (typeof (VSlice e' xs)) (TSlice e) = false).
  { unfold AssignableTo. cbn [typeof ty_eqb]. rewrite orb_false_r.
    apply not_true_is_false. by intros ?%ty_eqb_eq. }
  rewrite Ha.
  assert (Hw : weak_convert L d (VSlice e' xs) (TSlice e) = None).
  { unfold weak_convert. by destruct (WeaklyTyped d). }
  rewrite Hw. by destruct xs.
Qed.

(** X17. A slice source on a slice target of another element type is
    converted element by element: the conversion succeeds exactly when
    every element converts into the element type, to the slice of the
    converted elements in the same order; otherwise it returns the
    error of the first element that fails and leaves the target as it
    was. A nil slice gives an empty slice that is not nil. *)
Theorem slice_elementwise L d e' e xs old :
  e' <> e ->
  (forall ys,
     setValue L d (Some (VSlice e' (Some xs))) (TSlice e) old =
       (VSlice e (Some ys), None) <->
     Forall2 (fun x y => setValue L d (Interface x) e (zero e) = (y, None)) xs ys) /\
  (forall x err,
     setValue L d (Some (VSlice e' (Some xs))) (TSlice e) old = (x, Some err) ->
     x = old /\
     exists pre el post,
       xs = pre ++ el :: post /\
       Forall (fun p => snd (setValue L d (Interface p) e (zero e)) = None) pre /\
       snd (setValue L d (Interface el) e (zero e)) = Some err) /\
  setValue L d (Some (VSlice e' None)) (TSlice e) old = (VSlice e (Some []), None).
Proof.
  intros Hne. rewrite !(setValue_slice L d e' e _ old Hne). cbn [slice_elems].
  split; [|split; [|reflexivity]].
  - intros ys.
    assert (HF : Forall2 (fun x y => setValue L d (Interface x) e (zero e) = (y, None)) xs ys
                 <-> convert_elems (setValue_on L d) e xs = (ys, None)).
    { rewrite convert_elems_Forall2.
      split; intros H; (eapply Forall2_impl; [exact H|]);
        intros x y; (rewrite set_content_setValue || rewrite <- set_content_setValue);
        done. }
    rewrite HF.
    destruct (convert_elems (setValue_on L d) e xs) as [zs [err|]];
      split; (done || by intros [= ->]).
  - intros x err.
    destruct (convert_elems (setValue_on L d) e xs) as [zs [e1|]] eqn:E; [|done].
    intros [= <- <-]. split; [reflexivity|].
    destruct (convert_elems_first_error _ _ _ _ _ E) as (pre & el & post & -> & Hpre & Hel).
    exists pre, el, post. split; [done|]. split.
    + eapply Forall_impl; [exact Hpre|]. intros p Hp.
      rewrite <- set_content_setValue. exact Hp.
    + by rewrite <- set_content_setValue.
Qed.

Lemma slice_elementwise_witness :
  setValue no_libs NewDecoder
    (Some (VSlice TInterface (Some [VIface (Some (VString "1")); VIface (Some (VInt I0 2))])))
    (TSlice (TInt I0)) (VSlice (TInt I0) None) =
  (VSlice (TInt I0) (Some [VInt I0 1; VInt I0 2]), None).
Proof.
  apply (proj1 (slice_elementwise no_libs NewDecoder TInterface (TInt I0)
                  [VIface (Some (VString "1")); VIface (Some (VInt I0 2))]
                  (VSlice (TInt I0) None) ltac:(discriminate))).
  repeat constructor.
Defined.

Lemma convert_entries_success L d kt et es : forall acc r,
  convert_entries L (setValue_on L d) kt et es acc = (r, None) <->
  exists conv, Forall2 (entry_converts L d kt et) es conv /\ r = stored L acc conv.
Proof.
  unfold entry_converts, stored.
  induction es as [|[k v] es IH]; intros acc r; cbn [convert_entries].
  - split.
    + intros [= <-]. exists []. split; [constructor|reflexivity].
    + intros (conv & ->%Forall2_nil_inv_l & ->). reflexivity.
  - rewrite !set_content_setValue. split.
    + destruct (setValue L d (Interface k) kt (zero kt)) as [nk [e|]] eqn:Ek; [done|].
      destruct (setValue L d (Interface v) et (zero et)) as [nv [e|]] eqn:Ev; [done|].
      intros (conv & Hconv & ->)%IH. exists ((nk, nv) :: conv). split; [|reflexivity].
      constructor; [|done]. by cbn [fst snd].
    + intros (conv & ([nk nv] & conv' & [Hk Hv] & Hrest & ->)%Forall2_cons_inv_l & ->).
      cbn [fst snd] in Hk, Hv. rewrite Hk, Hv. apply IH. by exists conv'.
Qed.

Lemma convert_entries_failure L d kt et es : forall acc r err,
  convert_entries L (setValue_on L d) kt et es acc = (r, Some err) ->
  exists pre kv post e,
    es = pre ++ kv :: post /\
    (exists conv, Forall2 (entry_converts L d kt et) pre conv) /\
    ((snd (setValue L d (Interface (fst kv)) kt (zero kt)) = Some e /\
      err = ErrMapKey e) \/
     (snd (setValue L d (Interface (fst kv)) kt (zero kt)) = None /\
      snd (setValue L d (Interface (snd kv)) et (zero et)) = Some e /\
      err = ErrMapValue e)).
Proof.
  induction es as [|[k v] es IH]; intros acc r err; cbn [convert_entries]; [done|].
  rewrite !set_content_setValue.
  destruct (setValue L d (Interface k) kt (zero kt)) as [nk [e|]] eqn:Ek.
  - intros [= _ <-]. exists [], (k, v), es, e. split; [done|].
    split; [exists []; constructor|]. left. cbn [fst]. by rewrite Ek.
  - destruct (setValue L d (Interface v) et (zero et)) as [nv [e|]] eqn:Ev.
    + intros [= _ <-]. exists [], (k, v), es, e. split; [done|].
      split; [exists []; constructor|]. right. cbn [fst snd]. by rewrite Ek, Ev.
    + intros (pre & kv & post & e & -> & [conv Hconv] & Hcase)%IH.
      exists ((k, v) :: pre), kv, post, e. split; [done|]. split; [|done].
      exists ((nk, nv) :: conv). constructor; [|done]. by split.
Qed.

Lemma setValue_map L d k' e' kt et m old :
  TMap k' e' <> TMap kt et ->
  setValue L d (Some (VMap k' e' m)) (TMap kt et) old =
  match convert_entries L (setValue_on L d) kt et (map_entries m) [] with
  | (es, None) => (VMap kt et (Some es), None)
  | (_, Some err) => (old, Some err)
  end.
Proof.
  intros Hne. unfold setValue. rewrite setValue_on_eq. unfold setValue_step.
  assert (Ha : AssignableTo (typeof (VMap k' e' m)) (TMap kt et) = false).
  { unfold AssignableTo. rewrite orb_false_r.
    apply not_true_is_false. by intros ?%ty_eqb_eq. }
  rewrite Ha.
  assert (Hw : weak_convert L d (VMap k' e' m) (TMap kt et) = None).
  { unfold weak_convert. by destruct (WeaklyTyped d). }
  rewrite Hw. by destruct m.
Qed.

(** X18. A map source on a map target of another type is converted
    entry by entry, in iteration order: when every key converts into
    the key type and every element into the element type, the target
    is a new map, never nil, of the converted entries; otherwise the
    conversion stops at the first entry that fails, returns its error
    marked as a map-key or a map-value error, and leaves the target as
    it was. *)
Theorem map_entrywise L d k' e' kt et m old :
  TMap k' e' <> TMap kt et ->
  (forall x,
     setValue L d (Some (VMap k' e' m)) (TMap kt et) old = (x, None) <->
     exists conv,
       Forall2 (entry_converts L d kt et) (map_entries m) conv /\
       x = VMap kt et (Some (stored L [] conv))) /\
  (forall x err,
     setValue L d (Some (VMap k' e' m)) (TMap kt et) old = (x, Some err) ->
     x = old /\
     exists pre kv post e,
       map_entries m = pre ++ kv :: post /\
       (exists conv, Forall2 (entry_converts L d kt et) pre conv) /\
       ((snd (setValue L d (Interface (fst kv)) kt (zero kt)) = Some e /\
         err = ErrMapKey e) \/
        (snd (setValue L d (Interface (fst kv)) kt (zero kt)) = None /\
         snd (setValue L d (Interface (snd kv)) et (zero et)) = Some e /\
         err = ErrMapValue e))).
Proof.
  intros Hne. rewrite (setValue_map L d k' e' kt et m old Hne). split.
  - intros x.
    destruct (convert_entries L (setValue_on L d) kt et (map_entries m) [])
      as [es [err|]] eqn:E.
    + split; [done|]. intros (conv & Hconv & ->).
      assert (H : convert_entries L (setValue_on L d) kt et (map_entries m) [] =
                  (stored L [] conv, None)).
      { apply convert_entries_success. by exists conv. }
      congruence.
    + apply convert_entries_success in E as (conv & Hconv & ->). split.
      * intros [= <-]. by exists conv.
      * intros (conv' & Hconv' & ->).
        assert (H : convert_entries L (setValue_on L d) kt et (map_entries m) [] =
                    (stored L [] conv', None)).
        { apply convert_entries_success. by exists conv'. }
        assert (H' : convert_entries L (setValue_on L d) kt et (map_entries m) [] =
                     (stored L [] conv, None)).
        { apply convert_entries_success. by exists conv. }
        congruence.
  - intros x err.
    destruct (convert_entries L (setValue_on L d) kt et (map_entries m) [])
      as [es [e1|]] eqn:E; [|done].
    intros [= <- <-]. split; [reflexivity|]. by eapply convert_entries_failure.
Qed.

Lemma map_entrywise_witness :
  setValue no_libs NewDecoder
    (Some (VMap TString TInterface (Some (doc [("1", VString "x"); ("2", VString "y")]))))
    (TMap (TInt I0) TString) (VMap (TInt I0) TString None) =
  (VMap (TInt I0) TString (Some [(VInt I0 1, VString "x"); (VInt I0 2, VString "y")]), None).
Proof.
  apply (proj1 (map_entrywise no_libs NewDecoder TString TInterface (TInt I0) TString
                  (Some (doc [("1", VString "x"); ("2", VString "y")]))
                  (VMap (TInt I0) TString None) ltac:(discriminate))).
  exists [(VInt I0 1, VString "x"); (VInt I0 2, VString "y")].
  split; [|reflexivity]. repeat constructor.
Defined.

(** X19. A document on a record target is decoded by [decodeMap] on
    the target itself: [setValue] gives what [decodeMap] gives on a
    pointer to the target, field resolution, [ZeroFields] and unknown
    keys included. *)
Theorem nested_document L d m n fs old x err :
  setValue L d (Some (VMap TString TInterface m)) (TStruct n fs) old = (x, err) <->
  decodeMap L d (map_entries m) (Some (VPtr (TStruct n fs) (Some old))) =
    (Some (VPtr (TStruct n fs) (Some x)), err).
Proof.
  unfold setValue, decodeMap. rewrite setValue_on_eq. unfold setValue_step.
  change (AssignableTo (typeof (VMap TString TInterface m)) (TStruct n fs)) with false.
  assert (Hw : weak_convert L d (VMap TString TInterface m) (TStruct n fs) = None).
  { unfold weak_convert. by destruct (WeaklyTyped d). }
  rewrite Hw. change (is_doc (VMap TString TInterface m)) with true. cbv iota.
  assert (Hm : match m with
               | Some l => decodeMap_at d (setValue_on L d) l (TStruct n fs) old
               | None => decodeMap_at d (setValue_on L d) [] (TStruct n fs) old
               end = decodeMap_at d (setValue_on L d) (map_entries m) (TStruct n fs) old).
  { by destruct m. }
  rewrite Hm.
  destruct (decodeMap_at d (setValue_on L d) (map_entries m) (TStruct n fs) old) as [y e].
  split; [by intros [= -> ->]|by intros [= -> ->]].
Qed.

Lemma not_assignable_to_pointer sv e :
  (forall e' p, sv <> VPtr e' p) -> AssignableTo (typeof sv) (TPtr e) = false.
Proof.
  intros Hsv. unfold AssignableTo.
  destruct sv; cbn [typeof ty_eqb orb]; try reflexivity.
  by destruct (Hsv e0 p).
Qed.

Lemma weak_convert_pointer L d sv e : weak_convert L d sv (TPtr e) = None.
Proof.
  unfold weak_convert. destruct (WeaklyTyped d); [|reflexivity].
  destruct sv as [| | |[|]| | | | | |]; reflexivity.
Qed.

(** X20. A source that is not a pointer converts into a pointer target
    exactly when it converts into the pointee type, starting from the
    zero value: on success the target points to a fresh value holding
    the result; on failure the error is the one of the pointee and
    the target is left as it was. *)
Theorem pointer_target L d sv e old :
  (forall e' p, sv <> VPtr e' p) ->
  setValue L d (Some sv) (TPtr e) old =
  match setValue L d (Some sv) e (zero e) with
  | (x, None) => (VPtr e (Some x), None)
  | (_, Some err) => (old, Some err)
  end.
Proof.
  intros Hsv. unfold setValue. rewrite (setValue_on_eq L d sv (TPtr e)).
  unfold setValue_step.
  rewrite (not_assignable_to_pointer sv e Hsv), weak_convert_pointer.
  destruct sv; try reflexivity. by destruct (Hsv e0 p).
Qed.

Lemma pointer_target_witness :
  setValue no_libs NewDecoder (Some (VString "42")) (TPtr (TInt I0)) (VPtr (TInt I0) None) =
  (VPtr (TInt I0) (Some (VInt I0 42)), None).
Proof.
  apply (pointer_target no_libs NewDecoder (VString "42") (TInt I0) (VPtr (TInt I0) None)).
  discriminate.
Defined.

(** *** [ToMap] *)

(** X21. [ToMap] accepts a struct and a pointer to a struct, and
    nothing else: nil, a nil pointer, a pointer to a pointer and every
    value of another kind fail with the not-a-struct error. *)
Theorem ToMap_accepts input :
  (struct_input input -> exists m, ToMap input = inl m) /\
  (~ struct_input input -> exists k, ToMap input = inr (ErrToMapNotStruct k)).
Proof.
  split.
  - intros [(n & fs & vs & ->)|(e & n & fs & vs & ->)]; by eexists.
  - intros Hn. unfold ToMap.
    destruct input as [[| | | | | | |e [[| | | | | | | |n fs vs|]|]|n fs vs|]|];
      try (by eexists).
    + destruct Hn. right. by exists e, n, fs, vs.
    + destruct Hn. left. by exists n, fs, vs.
Qed.

Lemma ToMap_accepts_witness :
  (exists m, ToMap (ptr_to TItem (zero TItem)) = inl m) /\
  (exists k, ToMap (Some (VPtr (TPtr TItem) (Some (VPtr TItem (Some (zero TItem)))))) =
             inr (ErrToMapNotStruct k)).
Proof.
  split.
  - apply (proj1 (ToMap_accepts (ptr_to TItem (zero TItem)))).
    right. by exists TItem, "Item", Item_fields, (zeros Item_fields).
  - apply (proj2 (ToMap_accepts _)).
    intros [(n & fs & vs & H)|(e & n & fs & vs & H)]; discriminate H.
Defined.





(** *** [Decode] on records and other values *)

(** [Decode] on a record, or a pointer to one, projects it with
    [ToMap] and decodes the projection (lines 94-96, 547-553). *)
Lemma Decode_struct L d n fs vs t rv :
  Decode L d (Some (VStruct n fs vs)) (Some (VPtr t (Some rv))) =
    decodeMap L d (ToMap_fields fs vs []) (Some (VPtr t (Some rv))) /\
  Decode L d (Some (VPtr (TStruct n fs) (Some (VStruct n fs vs)))) (Some (VPtr t (Some rv))) =
    decodeMap L d (ToMap_fields fs vs []) (Some (VPtr t (Some rv))).
Proof. split; reflexivity. Qed.



(** X24. Input that is not text is never decoded into a destination
    that is not a pointer to a value: [Decode] fails, with an error
    or a panic of [reflect], and the destination is left as it was. *)
Theorem Decode_needs_pointer L d input output :
  input_bytes input = None ->
  ~ valid_pointer output ->
  exists e, Decode L d input output = (output, Some e).
Proof.
  intros Hin Hout.
  assert (Hmap : forall m, exists e, decodeMap L d m output = (output, Some e)).
  { intros m. exists ErrInvalidOutput. unfold decodeMap.
    destruct output as [[| | | | | | |e [rv|]| |]|]; try reflexivity.
    destruct Hout. by exists e, rv. }
  assert (Hval : exists e, decodeValue L d input output = (output, Some e)).
  { unfold decodeValue.
    destruct output as [[| | | | | | |e [rv|]| |]|];
      try (destruct Hout; by exists e, rv);
      repeat case_match; by eexists. }
  unfold Decode. unfold input_bytes in Hin.
  repeat case_match; try discriminate Hin; try apply Hmap; apply Hval.
Qed.

Lemma Decode_needs_pointer_witness :
  exists e,
    Decode no_libs NewDecoder (Some (VInt I0 42)) (Some (VInt I0 0)) =
    (Some (VInt I0 0), Some e).
Proof.
  apply (Decode_needs_pointer no_libs NewDecoder (Some (VInt I0 42)) (Some (VInt I0 0))
           eq_refl).
  intros (t & rv & H). discriminate H.
Defined.

(** *** White space around the input of [AutoDecode] *)

(** X25. [AutoDecode] decodes the input with the white space at its
    ends removed: a string or a byte slice gives what its trimmed
    bytes give, so two inputs that differ in surrounding white space
    decode alike. *)
Theorem AutoDecode_trims L data raw output :
  input_bytes data = Some raw ->
  AutoDecode L data output = AutoDecode L (Some (byte_slice (TrimSpace raw))) output.
Proof.
  intros Hin. unfold AutoDecode. rewrite Hin.
  unfold input_bytes, byte_slice, slice_elems.
  by rewrite string_of_bytes_of_string, TrimSpace_idem.
Qed.

Lemma AutoDecode_trims_witness :
  AutoDecode no_libs (Some (VString "  id: 1  ")) None =
  AutoDecode no_libs (Some (byte_slice "id: 1")) None.
Proof.
  apply (AutoDecode_trims no_libs (Some (VString "  id: 1  ")) "  id: 1  " None eq_refl).
Defined.
